(** * WhatsApp CRM: inbound ingestion, routing and status tracking

    A shallow embedding of [src/lib/whatsapp/webhook-handler.ts] and
    [src/app/api/webhooks/whatsapp/route.ts], over a relational store that
    enforces the uniqueness constraints, the foreign keys of [crm_messages]
    and the columns of the two log tables of
    [supabase/migrations/001_crm_schema.sql].

    Layout:
    - [JS]        JSON-shaped JavaScript values and the operators the
                  handler applies to them ([?.], [||], [>], template
                  literals, [JSON.stringify], [parseInt], [padStart]);
    - [Extract]   [extractMessageContent] and [buildMessagePreview];
    - [Route]     the webhook route ([POST], [timingSafeEqual]);
    - [Store]     tables, rows, the state-and-exception monad and the queries;
    - [Handler]   the ingestion pipeline, contact and conversation
                  resolution, agent assignment (with what other invocations
                  do between its requests) and delivery-status tracking;
    - [ExtractFacts], [RouteFacts], [HandlerFacts]
                  the properties proved of each.

    Envelope fields of the provider payload are typed as
    [src/types/whatsapp.ts] declares them; the body of a message stays a
    JSON value, since the handler reads it untyped. *)

From Stdlib Require Import List String Ascii Bool Arith ZArith Lia.
Import ListNotations.
Local Open Scope list_scope.
Local Open Scope string_scope.

Set Implicit Arguments.
Set Warnings "-register-all".

(* ===================================================================== *)
(** * JavaScript values                                                    *)
(* ===================================================================== *)

Module JS.

(** A normal or abrupt (throw) completion of a JavaScript evaluation. *)
Inductive completion (A : Type) : Type :=
| Normal (a : A)
| Throw (e : string).
Arguments Normal {A} a.
Arguments Throw {A} e.

Definition cbind {A B} (c : completion A) (k : A -> completion B) : completion B :=
  match c with
  | Normal a => k a
  | Throw e => Throw e
  end.

(** Values produced by [JSON.parse], plus [undefined]. A number is
    identified by its canonical decimal text, the text [String(n)] yields
    (so [JNum "131047"], [JNum "-23.55"], [JNum "NaN"]). A string is the
    sequence of its UTF-16 code units; the model has the code units below
    256, one character each. *)
Inductive JSValue : Type :=
| JUndefined
| JNull
| JBool (b : bool)
| JNum (repr : string)
| JStr (s : string)
| JArr (items : list JSValue)
| JObj (fields : list (string * JSValue)).

Fixpoint assoc (p : string) (fields : list (string * JSValue)) : JSValue :=
  match fields with
  | [] => JUndefined
  | (k, v) :: rest => if String.eqb k p then v else assoc p rest
  end.

Definition nullish (v : JSValue) : bool :=
  match v with
  | JUndefined | JNull => true
  | _ => false
  end.

(** Decimal text of a natural number. *)
Definition digit_char (d : nat) : ascii := ascii_of_nat (48 + d).

Fixpoint nat_digits (fuel n : nat) (acc : string) : string :=
  match fuel with
  | O => acc
  | S f =>
      let acc' := String (digit_char (n mod 10)) acc in
      if (n <? 10)%nat then acc' else nat_digits f (n / 10) acc'
  end.

Definition string_of_nat (n : nat) : string := nat_digits (S n) n "".

(** [v.p] for the property names the handler reads. Reading a property of
    [undefined] or [null] throws a TypeError; primitives and arrays have
    none of the handler's property names apart from [length]. *)
Definition get_prop (v : JSValue) (p : string) : completion JSValue :=
  match v with
  | JUndefined | JNull =>
      Throw ("TypeError: Cannot read properties of undefined (reading '" ++ p ++ "')")
  | JObj fields => Normal (assoc p fields)
  | JArr items =>
      if String.eqb p "length" then Normal (JNum (string_of_nat (List.length items)))
      else Normal JUndefined
  | JStr s =>
      if String.eqb p "length" then Normal (JNum (string_of_nat (String.length s)))
      else Normal JUndefined
  | _ => Normal JUndefined
  end.

(** [v?.p] *)
Definition get_prop_opt (v : JSValue) (p : string) : completion JSValue :=
  if nullish v then Normal JUndefined else get_prop v p.

(** ToBoolean *)
Definition truthy (v : JSValue) : bool :=
  match v with
  | JUndefined | JNull => false
  | JBool b => b
  | JNum repr => negb (String.eqb repr "0" || String.eqb repr "NaN")
  | JStr s => negb (String.eqb s "")
  | JArr _ | JObj _ => true
  end.

(** [a || b] *)
Definition js_or (a b : JSValue) : JSValue := if truthy a then a else b.

(** [a === b] against a string literal, as a [switch] case does. *)
Definition strict_eq_str (v : JSValue) (lit : string) : bool :=
  match v with
  | JStr s => String.eqb s lit
  | _ => false
  end.

Fixpoint join (sep : string) (parts : list string) : string :=
  match parts with
  | [] => ""
  | [x] => x
  | x :: rest => x ++ sep ++ join sep rest
  end.

(** The text ToString gives, as a template literal applies it, where the
    conversion completes: an object is written [[object Object]], by
    [Object.prototype.toString]. [ToString] below tells where it does not
    complete. *)
Fixpoint to_string (v : JSValue) : string :=
  match v with
  | JUndefined => "undefined"
  | JNull => "null"
  | JBool true => "true"
  | JBool false => "false"
  | JNum repr => repr
  | JStr s => s
  | JArr items =>
      join "," (List.map (fun e => if nullish e then "" else to_string e) items)
  | JObj _ => "[object Object]"
  end.

(** ToString with its abrupt completion. No property of a parsed value is
    callable, so an own property [toString] of an object shadows
    [Object.prototype.toString] with something that cannot be called;
    [valueOf] returns the object itself, and OrdinaryToPrimitive is left
    without a primitive: a TypeError. The items of an array are converted
    one by one, by [Array.prototype.join]. *)
Definition has_own_property (p : string) (fields : list (string * JSValue)) : bool :=
  existsb (fun field => String.eqb (fst field) p) fields.

Fixpoint ToString (v : JSValue) : completion string :=
  match v with
  | JArr items =>
      cbind
        ((fix parts (l : list JSValue) : completion (list string) :=
            match l with
            | [] => Normal []
            | e :: rest =>
                cbind (if nullish e then Normal "" else ToString e) (fun part =>
                cbind (parts rest) (fun others => Normal (part :: others)))
            end) items)
        (fun texts => Normal (join "," texts))
  | JObj fields =>
      if has_own_property "toString" fields
      then Throw "TypeError: Cannot convert object to primitive value"
      else Normal "[object Object]"
  | _ => Normal (to_string v)
  end.

(** String quoting of [JSON.stringify]. *)
Definition hex_digit (d : nat) : ascii :=
  if (d <? 10)%nat then ascii_of_nat (48 + d) else ascii_of_nat (87 + d).

Definition dquote : ascii := ascii_of_nat 34.

Definition json_escape_char (c : ascii) : string :=
  let n := nat_of_ascii c in
  if (n =? 34)%nat then String (ascii_of_nat 92) (String dquote "")
  else if (n =? 92)%nat then "\\"
  else if (n =? 8)%nat then "\b"
  else if (n =? 12)%nat then "\f"
  else if (n =? 10)%nat then "\n"
  else if (n =? 13)%nat then "\r"
  else if (n =? 9)%nat then "\t"
  else if (n <? 32)%nat then
    "\u00" ++ String (hex_digit (n / 16)) (String (hex_digit (n mod 16)) "")
  else String c "".

Fixpoint json_escape (s : string) : string :=
  match s with
  | EmptyString => ""
  | String c rest => json_escape_char c ++ json_escape rest
  end.

Definition json_quote (s : string) : string :=
  String dquote (json_escape s ++ String dquote "").

Definition json_number (repr : string) : string :=
  if String.eqb repr "NaN" || String.eqb repr "Infinity" || String.eqb repr "-Infinity"
  then "null" else repr.

(** [JSON.stringify(v)]; [None] is the result [undefined]. Properties whose
    value is [undefined] are left out of an object, and an [undefined]
    array item is written [null]. *)
Fixpoint JSON_stringify (v : JSValue) : option string :=
  match v with
  | JUndefined => None
  | JNull => Some "null"
  | JBool true => Some "true"
  | JBool false => Some "false"
  | JNum repr => Some (json_number repr)
  | JStr s => Some (json_quote s)
  | JArr items =>
      Some ("[" ++ join "," (List.map (fun e =>
                     match JSON_stringify e with
                     | Some t => t
                     | None => "null"
                     end) items) ++ "]")
  | JObj fields =>
      Some ("{" ++ join ","
              ((fix members (fs : list (string * JSValue)) : list string :=
                  match fs with
                  | [] => []
                  | (k, x) :: rest =>
                      match JSON_stringify x with
                      | Some t => (json_quote k ++ ":" ++ t) :: members rest
                      | None => members rest
                      end
                  end) fields) ++ "}")
  end.

(** [s.padStart(n, "0")] *)
Fixpoint repeat_char (c : ascii) (n : nat) : string :=
  match n with
  | O => ""
  | S k => String c (repeat_char c k)
  end.

Definition padStart (s : string) (n : nat) (c : ascii) : string :=
  repeat_char c (n - String.length s) ++ s.

(** A value that is a string, [null] or [undefined]: [Some s] when it is
    truthy (a non-empty string). *)
Definition configured (v : option string) : option string :=
  match v with
  | Some s => if String.eqb s "" then None else Some s
  | None => None
  end.

(** White space and line terminators (StrWhiteSpaceChar) among the code
    units below 256: tab, line feed, vertical tab, form feed, carriage
    return, space and no-break space. *)
Definition is_space (c : ascii) : bool :=
  let n := nat_of_ascii c in
  ((n =? 32) || (n =? 9) || (n =? 10) || (n =? 11) || (n =? 12) || (n =? 13)
   || (n =? 160))%nat.

(** [parseInt(s)]: leading white space, an optional sign, then the longest
    run of digits (hexadecimal after [0x]); [None] is [NaN]. *)

Fixpoint skip_spaces (s : string) : string :=
  match s with
  | String c rest => if is_space c then skip_spaces rest else s
  | EmptyString => s
  end.

Definition digit_value (radix : nat) (c : ascii) : option nat :=
  let n := nat_of_ascii c in
  let d := if ((48 <=? n) && (n <=? 57))%nat then Some (n - 48)
           else if ((97 <=? n) && (n <=? 102))%nat then Some (n - 87)
           else if ((65 <=? n) && (n <=? 70))%nat then Some (n - 55)
           else None in
  match d with
  | Some v => if (v <? radix)%nat then Some v else None
  | None => None
  end.

Fixpoint parse_digits (radix : nat) (s : string) (acc : option Z) : option Z :=
  match s with
  | String c rest =>
      match digit_value radix c with
      | Some d =>
          parse_digits radix rest
            (Some (match acc with
                   | Some a => a * Z.of_nat radix + Z.of_nat d
                   | None => Z.of_nat d
                   end)%Z)
      | None => acc
      end
  | EmptyString => acc
  end.

Definition parse_unsigned (s : string) : option Z :=
  match s with
  | String "0" (String "x" rest) | String "0" (String "X" rest) =>
      parse_digits 16 rest None
  | _ => parse_digits 10 s None
  end.

Definition parseInt (s : string) : option Z :=
  match skip_spaces s with
  | String "-" rest => option_map Z.opp (parse_unsigned rest)
  | String "+" rest => parse_unsigned rest
  | t => parse_unsigned t
  end.

(** ** Comparison with a number

    [v > 100] converts [v] to a number: a string by StringToNumber, an
    array or an object through its text. A numeric text is read as
    [mantissa * 10 ^ exponent]. *)

Inductive NumberValue : Type :=
| NaN
| Infinite (negative : bool)
| Finite (negative : bool) (mantissa exponent : Z).

Fixpoint trim_end (s : string) : string :=
  match s with
  | EmptyString => EmptyString
  | String c rest =>
      match trim_end rest with
      | EmptyString => if is_space c then EmptyString else String c EmptyString
      | kept => String c kept
      end
  end.

(** The longest run of digits at the start of [s], and what follows it. *)
Fixpoint digits_prefix (radix : nat) (s : string) : string :=
  match s with
  | String c rest =>
      match digit_value radix c with
      | Some _ => String c (digits_prefix radix rest)
      | None => EmptyString
      end
  | EmptyString => EmptyString
  end.

Fixpoint after_digits (radix : nat) (s : string) : string :=
  match s with
  | String c rest =>
      match digit_value radix c with
      | Some _ => after_digits radix rest
      | None => s
      end
  | EmptyString => EmptyString
  end.

Definition digits_value (radix : nat) (digits : string) : Z :=
  match parse_digits radix digits None with
  | Some v => v
  | None => 0%Z
  end.

(** One digit or more, and nothing else. *)
Definition only_digits (radix : nat) (s : string) : bool :=
  (negb (String.eqb s "") && String.eqb (after_digits radix s) "")%bool.

(** ExponentPart, or nothing: [e], an optional sign, digits. *)
Definition exponent_part (s : string) : option Z :=
  match s with
  | EmptyString => Some 0%Z
  | String c rest =>
      if (Ascii.eqb c "e" || Ascii.eqb c "E")%bool then
        match rest with
        | String "-" digits =>
            if only_digits 10 digits then Some (- digits_value 10 digits)%Z else None
        | String "+" digits =>
            if only_digits 10 digits then Some (digits_value 10 digits) else None
        | digits =>
            if only_digits 10 digits then Some (digits_value 10 digits) else None
        end
      else None
  end.

(** StrUnsignedDecimalLiteral: [Infinity], or digits with an optional
    fraction and exponent. *)
Definition unsigned_decimal (negative : bool) (s : string) : NumberValue :=
  if String.eqb s "Infinity" then Infinite negative
  else
    let integer := digits_prefix 10 s in
    let rest := after_digits 10 s in
    let fraction := match rest with
                    | String "." r => digits_prefix 10 r
                    | _ => EmptyString
                    end in
    let tail := match rest with
                | String "." r => after_digits 10 r
                | _ => rest
                end in
    if (String.eqb integer "" && String.eqb fraction "")%bool then NaN
    else
      match exponent_part tail with
      | Some e =>
          Finite negative (digits_value 10 (integer ++ fraction))
            (e - Z.of_nat (String.length fraction))%Z
      | None => NaN
      end.

Definition non_decimal (radix : nat) (digits : string) : NumberValue :=
  if only_digits radix digits then Finite false (digits_value radix digits) 0%Z else NaN.

(** StringToNumber: white space is trimmed; the empty text is 0; a text
    that is no numeric literal is [NaN]. *)
Definition StringToNumber (s : string) : NumberValue :=
  match trim_end (skip_spaces s) with
  | EmptyString => Finite false 0%Z 0%Z
  | String "0" (String "x" digits) | String "0" (String "X" digits) =>
      non_decimal 16 digits
  | String "0" (String "o" digits) | String "0" (String "O" digits) =>
      non_decimal 8 digits
  | String "0" (String "b" digits) | String "0" (String "B" digits) =>
      non_decimal 2 digits
  | String "-" rest => unsigned_decimal true rest
  | String "+" rest => unsigned_decimal false rest
  | t => unsigned_decimal false t
  end.

(** ToNumber. An array or an object is converted to a primitive first:
    [valueOf] returns the object, so the primitive is its text. *)
Definition ToNumber (v : JSValue) : completion NumberValue :=
  match v with
  | JUndefined => Normal NaN
  | JNull => Normal (Finite false 0%Z 0%Z)
  | JBool true => Normal (Finite false 1%Z 0%Z)
  | JBool false => Normal (Finite false 0%Z 0%Z)
  | JNum repr => Normal (StringToNumber repr)
  | JStr s => Normal (StringToNumber s)
  | JArr _ | JObj _ => cbind (ToString v) (fun text => Normal (StringToNumber text))
  end.

(** [n > 100]. The number of a text is the double nearest to it, which is
    above 100 when the text denotes more than [100 + 2 ^ -47], half way to
    the next double. *)
Definition above_100 (n : NumberValue) : bool :=
  match n with
  | NaN => false
  | Infinite negative => negb negative
  | Finite true _ _ => false
  | Finite false mantissa exponent =>
      if (0 <=? exponent)%Z then (100 <? mantissa * 10 ^ exponent)%Z
      else ((100 * 2 ^ 47 + 1) * 10 ^ (- exponent) <? mantissa * 2 ^ 47)%Z
  end.

(** [v > 100] *)
Definition exceeds_100 (v : JSValue) : completion bool :=
  cbind (ToNumber v) (fun n => Normal (above_100 n)).

(** A [Date]: its time value in milliseconds since the epoch; [None] is an
    invalid date. [new Date(v)] is invalid outside +-8.64e15. *)
Definition Date : Type := option Z.

Definition max_time_value : Z := 8640000000000000.

Definition new_Date (time_value : option Z) : Date :=
  match time_value with
  | Some t => if (Z.abs t <=? max_time_value)%Z then Some t else None
  | None => None
  end.

(** Civil date of a day number (days since 1970-01-01), proleptic Gregorian. *)
Definition civil_from_days (days : Z) : Z * Z * Z :=
  (let z := days + 719468 in
   let era := z / 146097 in
   let doe := z - era * 146097 in
   let yoe := (doe - doe / 1460 + doe / 36524 - doe / 146096) / 365 in
   let doy := doe - (365 * yoe + yoe / 4 - yoe / 100) in
   let mp := (5 * doy + 2) / 153 in
   let d := doy - (153 * mp + 2) / 5 + 1 in
   let m := if mp <? 10 then mp + 3 else mp - 9 in
   let y := yoe + era * 400 in
   (if m <=? 2 then y + 1 else y, m, d))%Z.

Definition pad_nat (width : nat) (n : Z) : string :=
  padStart (string_of_nat (Z.to_nat n)) width "0".

(** [date.toISOString()]: [YYYY-MM-DDTHH:mm:ss.sssZ] in UTC, with a signed
    six-digit year outside 0..9999; throws a RangeError on an invalid date. *)
Definition toISOString (d : Date) : completion string :=
  match d with
  | None => Throw "RangeError: Invalid time value"
  | Some t =>
      let days := (t / 86400000)%Z in
      let ms := (t mod 86400000)%Z in
      let '(y, m, dd) := civil_from_days days in
      let year :=
        if ((0 <=? y)%Z && (y <=? 9999)%Z)%bool then pad_nat 4 y
        else (if (y <? 0)%Z then "-" else "+") ++ pad_nat 6 (Z.abs y) in
      Normal (year ++ "-" ++ pad_nat 2 m ++ "-" ++ pad_nat 2 dd ++ "T"
                ++ pad_nat 2 (ms / 3600000)%Z ++ ":"
                ++ pad_nat 2 ((ms / 60000) mod 60)%Z ++ ":"
                ++ pad_nat 2 ((ms / 1000) mod 60)%Z ++ "."
                ++ pad_nat 3 (ms mod 1000)%Z ++ "Z")
  end.

(** [s.replace(/-/g, '')] *)
Fixpoint remove_dashes (s : string) : string :=
  match s with
  | String c rest =>
      if Ascii.eqb c "-" then remove_dashes rest else String c (remove_dashes rest)
  | EmptyString => EmptyString
  end.

End JS.

(* ===================================================================== *)
(** * Content extraction                                                   *)
(* ===================================================================== *)

Module Extract.
Import JS.

(** [MessageType] of [types/database.ts], the values allowed by the
    [message_type] check constraint of [crm_messages]. *)
Inductive MessageType : Type :=
| MT_text | MT_image | MT_audio | MT_video | MT_document
| MT_template | MT_location | MT_sticker | MT_reaction | MT_internal_note.


Record Extracted : Type := mkExtracted {
  messageType : MessageType;
  content : JSValue;
  mediaId : JSValue;
  mimeType : JSValue;
  filename : JSValue
}.

Local Notation "x <- c ;; k" := (cbind c (fun x => k))
  (at level 61, c at next level, right associativity, only parsing).

(** [message.<part>?.<field>] *)
Definition part_field (message : JSValue) (part field : string) : completion JSValue :=
  p <- get_prop message part ;;
  get_prop_opt p field.

(** [extractMessageContent], webhook-handler.ts lines 564-660. *)
Definition extractMessageContent (message : JSValue) : completion Extracted :=
  type <- get_prop message "type" ;;
  if strict_eq_str type "text" then
    body <- part_field message "text" "body" ;;
    Normal (mkExtracted MT_text (js_or body JNull) JNull JNull JNull)
  else if strict_eq_str type "image" then
    caption <- part_field message "image" "caption" ;;
    id <- part_field message "image" "id" ;;
    mime <- part_field message "image" "mime_type" ;;
    Normal (mkExtracted MT_image (js_or caption JNull) (js_or id JNull)
              (js_or mime JNull) JNull)
  else if strict_eq_str type "audio" then
    id <- part_field message "audio" "id" ;;
    mime <- part_field message "audio" "mime_type" ;;
    Normal (mkExtracted MT_audio JNull (js_or id JNull) (js_or mime JNull) JNull)
  else if strict_eq_str type "video" then
    caption <- part_field message "video" "caption" ;;
    id <- part_field message "video" "id" ;;
    mime <- part_field message "video" "mime_type" ;;
    Normal (mkExtracted MT_video (js_or caption JNull) (js_or id JNull)
              (js_or mime JNull) JNull)
  else if strict_eq_str type "document" then
    caption <- part_field message "document" "caption" ;;
    id <- part_field message "document" "id" ;;
    mime <- part_field message "document" "mime_type" ;;
    fname <- part_field message "document" "filename" ;;
    Normal (mkExtracted MT_document (js_or caption JNull) (js_or id JNull)
              (js_or mime JNull) (js_or fname JNull))
  else if strict_eq_str type "sticker" then
    id <- part_field message "sticker" "id" ;;
    mime <- part_field message "sticker" "mime_type" ;;
    Normal (mkExtracted MT_sticker JNull (js_or id JNull) (js_or mime JNull) JNull)
  else if strict_eq_str type "location" then
    latitude <- part_field message "location" "latitude" ;;
    longitude <- part_field message "location" "longitude" ;;
    name <- part_field message "location" "name" ;;
    address <- part_field message "location" "address" ;;
    let blob := JSON_stringify (JObj [("latitude", latitude); ("longitude", longitude);
                                      ("name", name); ("address", address)]) in
    Normal (mkExtracted MT_location
              (match blob with Some s => JStr s | None => JUndefined end)
              JNull JNull JNull)
  else if strict_eq_str type "reaction" then
    emoji <- part_field message "reaction" "emoji" ;;
    Normal (mkExtracted MT_reaction (js_or emoji JNull) JNull JNull JNull)
  else
    Normal (mkExtracted MT_text
              (JStr ("[Unsupported message type: " ++ to_string type ++ "]"))
              JNull JNull JNull).

(** [content.length > 100], for a truthy [content]: the length of a string
    or of an array, the [length] property of an object, [undefined] for a
    number or a boolean. *)
Definition length_exceeds_100 (content : JSValue) : completion bool :=
  match content with
  | JStr s => Normal (100 <? String.length s)%nat
  | JArr items => Normal (100 <? List.length items)%nat
  | JObj fields => exceeds_100 (assoc "length" fields)
  | _ => Normal false
  end.

(** [content.substring(0, 100) + '...']: [substring] is a method of
    strings, and of nothing else a message carries. *)
Definition truncate_100 (content : JSValue) : completion JSValue :=
  match content with
  | JStr s => Normal (JStr (String.substring 0 100 s ++ "..."))
  | _ => Throw "TypeError: content.substring is not a function"
  end.

(** The labels [[Localiza\u00e7\u00e3o]] and [[Rea\u00e7\u00e3o]], in code
    units. *)
Definition label_location : string :=
  "[Localiza" ++ String (ascii_of_nat 231) (String (ascii_of_nat 227) "o]").

Definition label_reaction : string :=
  "[Rea" ++ String (ascii_of_nat 231) (String (ascii_of_nat 227) "o]").

(** [buildMessagePreview], webhook-handler.ts lines 666-694. The content is
    what the extractor returned: declared a string or [null], and at run
    time whatever the message carried. *)
Definition buildMessagePreview (messageType : MessageType) (content : JSValue)
  : completion JSValue :=
  let labelled (label : string) : completion JSValue :=
    if truthy content then
      text <- ToString content ;;
      Normal (JStr (label ++ " " ++ text))
    else Normal (JStr label) in
  match messageType with
  | MT_text =>
      if truthy content then
        long <- length_exceeds_100 content ;;
        if long then truncate_100 content else Normal content
      else Normal (JStr "")
  | MT_image => labelled "[Imagem]"
  | MT_audio => Normal (JStr "[Audio]")
  | MT_video => labelled "[Video]"
  | MT_document => labelled "[Documento]"
  | MT_sticker => Normal (JStr "[Sticker]")
  | MT_location => Normal (JStr label_location)
  | MT_reaction => Normal (js_or content (JStr label_reaction))
  | _ => Normal (js_or content (JStr ""))
  end.



(** [message.<part>?.<field>] of a message that is an object: never throws. *)
Definition field_of (message : JSValue) (part field : string) : JSValue :=
  match message with
  | JObj fields =>
      let p := assoc part fields in
      if nullish p then JUndefined
      else match get_prop p field with Normal v => v | Throw _ => JUndefined end
  | _ => JUndefined
  end.


End Extract.

(* ===================================================================== *)
(** * The webhook route                                                    *)
(* ===================================================================== *)

Module Route.
Import JS.

(** What the route reads of a [NextRequest]: [await request.text()] and
    [request.headers.get('x-hub-signature-256')]. Header characters are
    code points below 256. *)
Record NextRequest : Type := mkRequest {
  request_text : string;
  header_signature : option string
}.

Record NextResponse : Type := mkResponse {
  response_json : list (string * string);
  response_status : nat
}.

(** The observable steps of one [POST], in the order they happen. *)
Inductive Effect : Type :=
| ConsoleError (msg : string)
| ConsoleWarn (msg : string)
| CreateHmac (secret body : string)
| JsonParse (text : string)
| ProcessWebhookPayload (payload : JSValue).

(** [Buffer.from(s)]: the UTF-8 bytes of [s]. *)
Definition utf8_char (c : ascii) : list nat :=
  let n := nat_of_ascii c in
  if (n <? 128)%nat then [n] else [192 + n / 64; 128 + n mod 64]%nat.

Fixpoint Buffer_from (s : string) : list nat :=
  match s with
  | EmptyString => []
  | String c rest => (utf8_char c ++ Buffer_from rest)%list
  end.

Fixpoint bytes_eqb (a b : list nat) : bool :=
  match a, b with
  | [], [] => true
  | x :: a', y :: b' => ((x =? y)%nat && bytes_eqb a' b')%bool
  | _, _ => false
  end.

(** [require('crypto').timingSafeEqual]: throws on buffers of different
    byte length. *)
Definition crypto_timingSafeEqual (a b : list nat) : completion bool :=
  if (List.length a =? List.length b)%nat then Normal (bytes_eqb a b)
  else Throw "RangeError: Input buffers must have the same byte length".

(** [timingSafeEqual], route.ts lines 114-136. *)
Definition timingSafeEqual (a b : string) : bool :=
  if negb (String.length a =? String.length b)%nat then
    let bufA := Buffer_from a in
    let bufB := Buffer_from a in
    match crypto_timingSafeEqual bufA bufB with
    | Normal _ => false
    | Throw _ => false
    end
  else
    let bufA := Buffer_from a in
    let bufB := Buffer_from b in
    match crypto_timingSafeEqual bufA bufB with
    | Normal r => r
    | Throw _ => String.eqb a b
    end.

Section WithPlatform.

(** [createHmac('sha256', secret).update(body).digest('hex')] *)
Variable hmac_sha256_hex : string -> string -> string.
(** [JSON.parse(text)]; [None] when it throws. *)
Variable JSON_parse : string -> option JSValue.

Definition expected_signature (secret body : string) : string :=
  "sha256=" ++ hmac_sha256_hex secret body.

(** [POST], route.ts lines 48-107; [appSecret] is
    [process.env.WHATSAPP_APP_SECRET]. The pipeline runs detached: calling
    it is the effect [ProcessWebhookPayload]. *)
Definition POST (appSecret : option string) (request : NextRequest)
  : NextResponse * list Effect :=
  let body := request_text request in
  let signature := header_signature request in
  match configured appSecret with
  | None =>
      (mkResponse [("error", "Server configuration error")] 500,
       [ConsoleError "WHATSAPP_APP_SECRET is not configured"])
  | Some secret =>
      match configured signature with
      | None =>
          (mkResponse [("error", "Missing signature")] 401,
           [ConsoleWarn "Missing x-hub-signature-256 header"])
      | Some sig =>
          let expectedSignature := expected_signature secret body in
          if negb (timingSafeEqual sig expectedSignature) then
            (mkResponse [("error", "Invalid signature")] 401,
             [CreateHmac secret body; ConsoleWarn "Invalid webhook signature"])
          else
            match JSON_parse body with
            | None =>
                (mkResponse [("error", "Invalid JSON")] 400,
                 [CreateHmac secret body; JsonParse body;
                  ConsoleError "Failed to parse webhook body as JSON"])
            | Some payload =>
                (mkResponse [("status", "ok")] 200,
                 [CreateHmac secret body; JsonParse body;
                  ProcessWebhookPayload payload])
            end
      end
  end.

(** The three ways a request fails verification. *)
Definition unverified (appSecret : option string) (request : NextRequest) : Prop :=
  configured appSecret = None
  \/ header_signature request = None
  \/ exists secret, appSecret = Some secret
       /\ header_signature request
          <> Some (expected_signature secret (request_text request)).

End WithPlatform.

End Route.

(* ===================================================================== *)
(** * The store                                                            *)
(* ===================================================================== *)

Module Store.
Import JS Extract.

(** Tables are lists of rows in insertion order. A row carries the columns
    the webhook handler reads or writes. A [uuid] is a natural number; the
    store draws the id of a new row from [next_uuid]. The inserts enforce
    the uniqueness of [(org_id, phone)], of [protocol_number] and of
    [whatsapp_message_id], and the foreign keys of [crm_messages]. The
    other foreign keys hold of what the handler writes as long as the row
    it has just read is still there; their violation, like a failure of
    the network, is a fault of the world. *)

Definition uuid : Type := nat.
(** An instant, in milliseconds since the epoch. *)
Definition timestamptz : Type := Z.

(** ** Column vocabularies (the check constraints of the migration) *)

Inductive UserRole : Type := r_owner | r_admin | r_agent.
Inductive QueueType : Type := q_sdr | q_closure | q_both.
Inductive UserStatus : Type := u_online | u_offline | u_away | u_busy.
Inductive ConversationStatus : Type :=
| c_pending | c_open | c_waiting | c_resolved | c_closed.
Inductive SenderType : Type := s_contact | s_agent | s_system | s_bot.
Inductive MessageStatus : Type :=
| m_pending | m_sent | m_delivered | m_read | m_failed.

Definition queue_name (q : QueueType) : string :=
  match q with
  | q_sdr => "sdr"
  | q_closure => "closure"
  | q_both => "both"
  end.

Definition is_online (s : UserStatus) : bool :=
  match s with u_online => true | _ => false end.

Definition status_in_online_away (s : UserStatus) : bool :=
  match s with u_online | u_away => true | _ => false end.

Definition role_in_agent_admin_owner (r : UserRole) : bool :=
  match r with r_agent | r_admin | r_owner => true end.

Definition status_is_pending (s : ConversationStatus) : bool :=
  match s with c_pending => true | _ => false end.

Definition status_in_pending_open_waiting (s : ConversationStatus) : bool :=
  match s with c_pending | c_open | c_waiting => true | _ => false end.

Definition status_in_open_waiting (s : ConversationStatus) : bool :=
  match s with c_open | c_waiting => true | _ => false end.

(** ** Rows *)

Record Organization : Type := mkOrganization {
  o_org_id : uuid;
  o_whatsapp_phone_number_id : option string;
  o_whatsapp_access_token : option string;
  o_auto_reply_message : option string
}.

Record CrmUser : Type := mkCrmUser {
  u_id : uuid;
  u_org_id : uuid;
  u_display_name : string;
  u_role : UserRole;
  u_queue : QueueType;
  u_status : UserStatus;
  u_max_concurrent_chats : Z
}.

Record Contact : Type := mkContact {
  ct_id : uuid;
  ct_org_id : uuid;
  ct_phone : string;
  ct_name : option string;
  ct_profile_picture_url : option string;
  ct_custom_fields : JSValue;
  ct_tags : list string;
  ct_created_at : timestamptz;
  ct_updated_at : timestamptz
}.

Record Conversation : Type := mkConversation {
  cv_id : uuid;
  cv_org_id : uuid;
  cv_contact_id : uuid;
  cv_assigned_agent_id : option uuid;
  cv_queue : option string;
  cv_status : ConversationStatus;
  cv_is_bot_active : bool;
  cv_current_flow_id : option uuid;
  cv_flow_variables : JSValue;
  cv_tags : list string;
  cv_classification : option string;
  cv_protocol_number : option string;
  cv_last_message_at : option timestamptz;
  cv_last_message_preview : option string;
  cv_unread_count : Z;
  cv_created_at : timestamptz;
  cv_updated_at : timestamptz
}.

Record Message : Type := mkMessage {
  ms_id : uuid;
  ms_conversation_id : uuid;
  ms_sender_type : SenderType;
  ms_sender_id : option uuid;
  ms_message_type : MessageType;
  ms_content : option string;
  ms_media_url : option string;
  ms_media_mime_type : option string;
  ms_media_filename : option string;
  ms_template_name : option string;
  ms_template_params : option JSValue;
  ms_whatsapp_message_id : option string;
  ms_status : MessageStatus;
  ms_error_message : option string;
  ms_reply_to_message_id : option uuid;
  ms_created_at : timestamptz
}.

Record ProtocolLog : Type := mkProtocolLog {
  pl_org_id : uuid;
  pl_conversation_id : option uuid;
  pl_protocol_number : string;
  pl_agent_id : option uuid;
  pl_contact_id : option uuid;
  pl_opened_at : timestamptz
}.

Record ActivityLog : Type := mkActivityLog {
  al_org_id : uuid;
  al_agent_id : uuid;
  al_activity_type : string;
  al_metadata : JSValue
}.

(** ** The provider and the object storage *)

Inductive ApiCall : Type :=
| SendTextMessage (to text phoneNumberId accessToken : string)
| MarkAsRead (messageId phoneNumberId accessToken : string)
| UploadMediaToSupabase (mediaId accessToken : string) (conversationId : uuid).

(** The outcome of one call: a rejection carries the error text; an accepted
    media upload carries the public URL and the MIME type. *)
Inductive ApiReply : Type :=
| ApiOk (publicUrl mimeType : string)
| ApiError (e : string).

(** ** The world a handler runs in

    The seven tables; the id of the next inserted row; the clock ([now],
    read by [new Date()] and by the store's [now()]);
    [process.env.WHATSAPP_ACCESS_TOKEN]; and the scripts of what the
    outside does: [faults] has one flag for each coming request to the
    store ([true]: the request fails; past the end of the list every
    request is answered), [random_draws] the coming values of
    [Math.floor(Math.random() * 99999)] (0 past the end), [api_replies]
    the coming answers of the provider and of the object storage (accepted
    past the end). [outbox] records the calls made and [console] the lines
    logged. *)

Record World : Type := mkWorld {
  crm_organizations : list Organization;
  crm_users : list CrmUser;
  crm_contacts : list Contact;
  crm_conversations : list Conversation;
  crm_messages : list Message;
  crm_protocol_log : list ProtocolLog;
  crm_agent_activity_log : list ActivityLog;
  next_uuid : uuid;
  now : timestamptz;
  env_access_token : option string;
  faults : list bool;
  random_draws : list nat;
  api_replies : list ApiReply;
  outbox : list ApiCall;
  console : list string
}.

Definition set_crm_contacts (v : list Contact) (w : World) : World :=
  mkWorld (crm_organizations w) (crm_users w) v (crm_conversations w) (crm_messages w)
    (crm_protocol_log w) (crm_agent_activity_log w) (next_uuid w) (now w)
    (env_access_token w) (faults w) (random_draws w) (api_replies w) (outbox w)
    (console w).

Definition set_crm_conversations (v : list Conversation) (w : World) : World :=
  mkWorld (crm_organizations w) (crm_users w) (crm_contacts w) v (crm_messages w)
    (crm_protocol_log w) (crm_agent_activity_log w) (next_uuid w) (now w)
    (env_access_token w) (faults w) (random_draws w) (api_replies w) (outbox w)
    (console w).

Definition set_crm_messages (v : list Message) (w : World) : World :=
  mkWorld (crm_organizations w) (crm_users w) (crm_contacts w) (crm_conversations w) v
    (crm_protocol_log w) (crm_agent_activity_log w) (next_uuid w) (now w)
    (env_access_token w) (faults w) (random_draws w) (api_replies w) (outbox w)
    (console w).

Definition set_crm_protocol_log (v : list ProtocolLog) (w : World) : World :=
  mkWorld (crm_organizations w) (crm_users w) (crm_contacts w) (crm_conversations w)
    (crm_messages w) v (crm_agent_activity_log w) (next_uuid w) (now w)
    (env_access_token w) (faults w) (random_draws w) (api_replies w) (outbox w)
    (console w).

Definition set_crm_agent_activity_log (v : list ActivityLog) (w : World) : World :=
  mkWorld (crm_organizations w) (crm_users w) (crm_contacts w) (crm_conversations w)
    (crm_messages w) (crm_protocol_log w) v (next_uuid w) (now w) (env_access_token w)
    (faults w) (random_draws w) (api_replies w) (outbox w) (console w).

Definition set_next_uuid (v : uuid) (w : World) : World :=
  mkWorld (crm_organizations w) (crm_users w) (crm_contacts w) (crm_conversations w)
    (crm_messages w) (crm_protocol_log w) (crm_agent_activity_log w) v (now w)
    (env_access_token w) (faults w) (random_draws w) (api_replies w) (outbox w)
    (console w).

Definition set_faults (v : list bool) (w : World) : World :=
  mkWorld (crm_organizations w) (crm_users w) (crm_contacts w) (crm_conversations w)
    (crm_messages w) (crm_protocol_log w) (crm_agent_activity_log w) (next_uuid w)
    (now w) (env_access_token w) v (random_draws w) (api_replies w) (outbox w)
    (console w).

Definition set_random_draws (v : list nat) (w : World) : World :=
  mkWorld (crm_organizations w) (crm_users w) (crm_contacts w) (crm_conversations w)
    (crm_messages w) (crm_protocol_log w) (crm_agent_activity_log w) (next_uuid w)
    (now w) (env_access_token w) (faults w) v (api_replies w) (outbox w) (console w).

Definition set_api_replies (v : list ApiReply) (w : World) : World :=
  mkWorld (crm_organizations w) (crm_users w) (crm_contacts w) (crm_conversations w)
    (crm_messages w) (crm_protocol_log w) (crm_agent_activity_log w) (next_uuid w)
    (now w) (env_access_token w) (faults w) (random_draws w) v (outbox w) (console w).

Definition set_outbox (v : list ApiCall) (w : World) : World :=
  mkWorld (crm_organizations w) (crm_users w) (crm_contacts w) (crm_conversations w)
    (crm_messages w) (crm_protocol_log w) (crm_agent_activity_log w) (next_uuid w)
    (now w) (env_access_token w) (faults w) (random_draws w) (api_replies w) v
    (console w).

Definition set_console (v : list string) (w : World) : World :=
  mkWorld (crm_organizations w) (crm_users w) (crm_contacts w) (crm_conversations w)
    (crm_messages w) (crm_protocol_log w) (crm_agent_activity_log w) (next_uuid w)
    (now w) (env_access_token w) (faults w) (random_draws w) (api_replies w) (outbox w)
    v.

(** ** State and exceptions

    A handler is a function of the world that completes normally or
    throws, and leaves a new world. *)

Definition M (A : Type) : Type := World -> completion A * World.

Definition ret {A} (a : A) : M A := fun w => (Normal a, w).

Definition bind {A B} (m : M A) (k : A -> M B) : M B :=
  fun w =>
    match m w with
    | (Normal a, w') => k a w'
    | (Throw e, w') => (Throw e, w')
    end.

Definition throw {A} (e : string) : M A := fun w => (Throw e, w).

Definition lift {A} (c : completion A) : M A := fun w => (c, w).

(** [try { body } catch (e) { handler }] *)
Definition try_catch {A} (body : M A) (handler : string -> M A) : M A :=
  fun w =>
    match body w with
    | (Normal a, w') => (Normal a, w')
    | (Throw e, w') => handler e w'
    end.

Definition console_log (msg : string) : M unit :=
  fun w => (Normal tt, set_console (console w ++ [msg])%list w).

(** [new Date()] *)
Definition new_Date_now : M Date := fun w => (Normal (new_Date (Some (now w))), w).

(** [Math.floor(Math.random() * 99999)]: the next draw of the world. *)
Definition Math_floor_random_99999 : M nat :=
  fun w =>
    match random_draws w with
    | d :: rest => (Normal d, set_random_draws rest w)
    | [] => (Normal 0, w)
    end.

(** A call to the provider or to the object storage: recorded in the
    outbox, answered by the next reply of the world; throws on a rejection. *)
Definition api_call (call : ApiCall) : M (string * string) :=
  fun w =>
    let w1 := set_outbox (outbox w ++ [call])%list w in
    match api_replies w1 with
    | ApiError e :: rest => (Throw e, set_api_replies rest w1)
    | ApiOk url mime :: rest => (Normal (url, mime), set_api_replies rest w1)
    | [] => (Normal ("", ""), w1)
    end.

(** ** Requests to the store

    A request answers [{ data, error }] and never throws. It fails when
    the statement violates a constraint the model enforces or names a
    column the table does not have, or when the world's next fault flag is
    set (any outside reason: the network, another constraint, row
    security); a failed request changes no row. *)

Inductive DbResult (A : Type) : Type :=
| Data (a : A)
| DbError (code message : string).
Arguments Data {A} a.
Arguments DbError {A} code message.

Definition Query (A : Type) : Type := World -> DbResult A * World.

Definition store_request {A} (q : Query A) : M (DbResult A) :=
  fun w =>
    match faults w with
    | true :: rest => (Normal (DbError "08006" "connection failure"), set_faults rest w)
    | false :: rest => let (r, w') := q (set_faults rest w) in (Normal r, w')
    | [] => let (r, w') := q w in (Normal r, w')
    end.

Definition unique_violation {A} : DbResult A :=
  DbError "23505" "duplicate key value violates unique constraint".

Definition foreign_key_violation {A} : DbResult A :=
  DbError "23503" "insert or update on table violates foreign key constraint".

(** The answer to a body that names a column the table does not have. *)
Definition unknown_column {A} (column table : string) : DbResult A :=
  DbError "PGRST204"
    ("Could not find the '" ++ column ++ "' column of '" ++ table
     ++ "' in the schema cache").

(** [.single()] *)
Definition single {A} (rows : list A) : DbResult A :=
  match rows with
  | [r] => Data r
  | _ => DbError "PGRST116" "JSON object requested, multiple (or no) rows returned"
  end.

Definition opt_string_eqb (a : option string) (b : string) : bool :=
  match a with
  | Some s => String.eqb s b
  | None => false
  end.

Definition opt_uuid_eqb (a : option uuid) (b : uuid) : bool :=
  match a with
  | Some x => (x =? b)%nat
  | None => false
  end.

(** *** crm_organizations *)

Definition q_organization_by_phone_number_id (phoneNumberId : string)
  : Query Organization :=
  fun w =>
    (single (filter (fun o => opt_string_eqb (o_whatsapp_phone_number_id o) phoneNumberId)
               (crm_organizations w)), w).

(** *** crm_contacts; UNIQUE (org_id, phone) *)

Definition contact_matches (orgId : uuid) (phone : string) (c : Contact) : bool :=
  ((ct_org_id c =? orgId)%nat && String.eqb (ct_phone c) phone)%bool.

Definition q_find_contact (orgId : uuid) (phone : string) : Query Contact :=
  fun w => (single (filter (contact_matches orgId phone) (crm_contacts w)), w).

(** The keys of an [updates] object besides [updated_at]; [None] is an
    absent key. *)
Record ContactUpdates : Type := mkContactUpdates {
  upd_name : option string;
  upd_profile_picture_url : option string
}.

Definition apply_contact_updates (upd : ContactUpdates) (t : timestamptz) (c : Contact)
  : Contact :=
  mkContact (ct_id c) (ct_org_id c) (ct_phone c)
    (match upd_name upd with Some n => Some n | None => ct_name c end)
    (match upd_profile_picture_url upd with
     | Some u => Some u
     | None => ct_profile_picture_url c
     end)
    (ct_custom_fields c) (ct_tags c) (ct_created_at c) t.

Definition q_update_contact (id : uuid) (upd : ContactUpdates) : Query Contact :=
  fun w =>
    match filter (fun c => (ct_id c =? id)%nat) (crm_contacts w) with
    | [c] =>
        (Data (apply_contact_updates upd (now w) c),
         set_crm_contacts
           (map (fun c => if (ct_id c =? id)%nat
                          then apply_contact_updates upd (now w) c else c)
              (crm_contacts w)) w)
    | rows => (single rows, w)
    end.

Definition q_insert_contact (orgId : uuid) (phone : string)
  (name profilePicture : option string) : Query Contact :=
  fun w =>
    if existsb (contact_matches orgId phone) (crm_contacts w) then (unique_violation, w)
    else
      let row := mkContact (next_uuid w) orgId phone name profilePicture
                   (JObj []) [] (now w) (now w) in
      (Data row,
       set_next_uuid (S (next_uuid w))
         (set_crm_contacts (crm_contacts w ++ [row])%list w)).

(** *** crm_conversations; protocol_number UNIQUE *)

Definition active_conversation_of (orgId contactId : uuid) (c : Conversation) : bool :=
  ((cv_org_id c =? orgId)%nat && (cv_contact_id c =? contactId)%nat
   && status_in_pending_open_waiting (cv_status c))%bool.

(** [.order('created_at', { ascending: false }).limit(1)] *)
Fixpoint latest_created (rows : list Conversation) : option Conversation :=
  match rows with
  | [] => None
  | r :: rest =>
      match latest_created rest with
      | Some r' => if (cv_created_at r <? cv_created_at r')%Z then Some r' else Some r
      | None => Some r
      end
  end.

Definition q_find_active_conversation (orgId contactId : uuid)
  : Query (option Conversation) :=
  fun w =>
    (Data (latest_created (filter (active_conversation_of orgId contactId)
                             (crm_conversations w))), w).

Definition q_insert_conversation (orgId contactId : uuid) (protocolNumber : string)
  : Query Conversation :=
  fun w =>
    if existsb (fun c => opt_string_eqb (cv_protocol_number c) protocolNumber)
         (crm_conversations w)
    then (unique_violation, w)
    else
      let row := mkConversation (next_uuid w) orgId contactId None None c_pending
                   false None (JObj []) [] None (Some protocolNumber)
                   (Some (now w)) None 0 (now w) (now w) in
      (Data row,
       set_next_uuid (S (next_uuid w))
         (set_crm_conversations (crm_conversations w ++ [row])%list w)).

Definition update_rows {A} (matches : A -> bool) (f : A -> A) (rows : list A) : list A :=
  map (fun r => if matches r then f r else r) rows.

(** The aggregate fields written after a message is stored. *)
Definition with_last_message (at_ : timestamptz) (preview : option string) (unread : Z)
  (t : timestamptz) (c : Conversation) : Conversation :=
  mkConversation (cv_id c) (cv_org_id c) (cv_contact_id c) (cv_assigned_agent_id c)
    (cv_queue c) (cv_status c) (cv_is_bot_active c) (cv_current_flow_id c)
    (cv_flow_variables c) (cv_tags c) (cv_classification c) (cv_protocol_number c)
    (Some at_) preview unread (cv_created_at c) t.

(** The fields written by an assignment. *)
Definition with_assignment (agentId : uuid) (t : timestamptz) (c : Conversation)
  : Conversation :=
  mkConversation (cv_id c) (cv_org_id c) (cv_contact_id c) (Some agentId)
    (cv_queue c) c_open (cv_is_bot_active c) (cv_current_flow_id c)
    (cv_flow_variables c) (cv_tags c) (cv_classification c) (cv_protocol_number c)
    (cv_last_message_at c) (cv_last_message_preview c) (cv_unread_count c)
    (cv_created_at c) t.

Definition q_update_conversation (id : uuid) (f : Conversation -> Conversation)
  : Query unit :=
  fun w =>
    (Data tt,
     set_crm_conversations
       (update_rows (fun c => (cv_id c =? id)%nat) f (crm_conversations w)) w).

Definition counts_for (orgId agentId : uuid) (c : Conversation) : bool :=
  ((cv_org_id c =? orgId)%nat && opt_uuid_eqb (cv_assigned_agent_id c) agentId
   && status_in_open_waiting (cv_status c))%bool.

Definition open_count (orgId agentId : uuid) (rows : list Conversation) : Z :=
  Z.of_nat (List.length (filter (counts_for orgId agentId) rows)).

Definition q_count_open_conversations (orgId agentId : uuid) : Query Z :=
  fun w => (Data (open_count orgId agentId (crm_conversations w)), w).

Definition q_protocol_number_of (id : uuid) : Query (option string) :=
  fun w =>
    (single (map cv_protocol_number
               (filter (fun c => (cv_id c =? id)%nat) (crm_conversations w))), w).

(** *** crm_users *)

Definition handles_queue (queue : option string) (u : CrmUser) : bool :=
  match configured queue with
  | Some q => (String.eqb (queue_name (u_queue u)) q
               || String.eqb (queue_name (u_queue u)) "both")%bool
  | None => true
  end.

Definition q_available_agents (orgId : uuid) (queue : option string)
  : Query (list CrmUser) :=
  fun w =>
    (Data (filter (fun u => ((u_org_id u =? orgId)%nat
                             && status_in_online_away (u_status u)
                             && role_in_agent_admin_owner (u_role u)
                             && handles_queue queue u)%bool)
             (crm_users w)), w).

(** *** crm_messages; whatsapp_message_id UNIQUE, conversation_id
    REFERENCES crm_conversations(id), sender_id REFERENCES crm_users(id) *)

Definition has_whatsapp_id (waMessageId : string) (m : Message) : bool :=
  opt_string_eqb (ms_whatsapp_message_id m) waMessageId.

(** The row [conversationId] refers to is in [crm_conversations], and the
    row [senderId] refers to is in [crm_users]. *)
Definition message_references (conversationId senderId : uuid) (w : World) : bool :=
  (existsb (fun c => (cv_id c =? conversationId)%nat) (crm_conversations w)
   && existsb (fun u => (u_id u =? senderId)%nat) (crm_users w))%bool.

(** The insert of lines 148-164: a contact's message, whose [sender_id] is
    the id the handler passes. *)
Definition q_insert_message (conversationId : uuid) (senderId : uuid)
  (messageType : MessageType) (content mediaUrl mediaMimeType mediaFilename : option string)
  (waMessageId : string) : Query Message :=
  fun w =>
    if existsb (has_whatsapp_id waMessageId) (crm_messages w) then (unique_violation, w)
    else if negb (message_references conversationId senderId w)
    then (foreign_key_violation, w)
    else
      let row := mkMessage (next_uuid w) conversationId s_contact (Some senderId)
                   messageType content mediaUrl mediaMimeType mediaFilename
                   None None (Some waMessageId) m_delivered None None (now w) in
      (Data row,
       set_next_uuid (S (next_uuid w))
         (set_crm_messages (crm_messages w ++ [row])%list w)).

(** The [updateData] of a status callback: a status, and an error message
    when the key is present. *)
Definition with_status (status : MessageStatus) (errorMessage : option string)
  (m : Message) : Message :=
  mkMessage (ms_id m) (ms_conversation_id m) (ms_sender_type m) (ms_sender_id m)
    (ms_message_type m) (ms_content m) (ms_media_url m) (ms_media_mime_type m)
    (ms_media_filename m) (ms_template_name m) (ms_template_params m)
    (ms_whatsapp_message_id m) status
    (match errorMessage with Some e => Some e | None => ms_error_message m end)
    (ms_reply_to_message_id m) (ms_created_at m).

Definition q_update_message_status (waMessageId : string) (status : MessageStatus)
  (errorMessage : option string) : Query unit :=
  fun w =>
    (Data tt,
     set_crm_messages
       (update_rows (has_whatsapp_id waMessageId) (with_status status errorMessage)
          (crm_messages w)) w).

(** An update whose body names no column value the table accepts. *)
Definition q_update_message_nothing (waMessageId : string) : Query unit :=
  fun w => (Data tt, w).

(** *** crm_protocol_log, crm_agent_activity_log

    The columns the migration gives the two tables. The handler's inserts
    name others: [action] and [details] for [crm_protocol_log], [details]
    for [crm_agent_activity_log] (whose column is [metadata]). Such a
    request is refused and writes nothing. *)

Definition crm_protocol_log_columns : list string :=
  ["id"; "org_id"; "conversation_id"; "protocol_number"; "agent_id"; "contact_id";
   "opened_at"; "closed_at"; "first_response_at"; "response_time_seconds";
   "resolution_time_seconds"; "classification"; "tags"].

Definition crm_agent_activity_log_columns : list string :=
  ["id"; "org_id"; "agent_id"; "activity_type"; "metadata"; "created_at"].

(** The first key of a body that is no column of the table. *)
Definition first_unknown (columns keys : list string) : option string :=
  find (fun key => negb (existsb (String.eqb key) columns)) keys.

(** An insert whose body has the keys [keys]; [write] is what it does to
    the table when every key is a column. *)
Definition q_insert_columns (table : string) (columns keys : list string)
  (write : World -> World) : Query unit :=
  fun w =>
    match first_unknown columns keys with
    | Some column => (unknown_column column table, w)
    | None => (Data tt, write w)
    end.

(** The body of lines 419-426 and 535-546. *)
Definition q_insert_protocol_log (orgId conversationId : uuid) (protocolNumber : string)
  : Query unit :=
  q_insert_columns "crm_protocol_log" crm_protocol_log_columns
    ["org_id"; "conversation_id"; "protocol_number"; "action"; "agent_id"; "details"]
    (fun w =>
       set_crm_protocol_log
         (crm_protocol_log w
          ++ [mkProtocolLog orgId (Some conversationId) protocolNumber None None (now w)])%list
         w).

(** The body of lines 550-555. *)
Definition q_insert_activity_log (orgId agentId : uuid) (activityType : string)
  : Query unit :=
  q_insert_columns "crm_agent_activity_log" crm_agent_activity_log_columns
    ["org_id"; "agent_id"; "activity_type"; "details"]
    (fun w =>
       set_crm_agent_activity_log
         (crm_agent_activity_log w
          ++ [mkActivityLog orgId agentId activityType (JObj [])])%list w).

End Store.

(* ===================================================================== *)
(** * The webhook handler                                                  *)
(* ===================================================================== *)

Module Handler.
Import JS Extract Store.

Local Notation "x <- m ;; k" := (bind m (fun x => k))
  (at level 61, m at next level, right associativity, only parsing).
Local Notation "m ;;; k" := (bind m (fun _ => k))
  (at level 61, right associativity, only parsing).

(** ** The payload ([types/whatsapp.ts]) *)

Record WhatsAppContact : Type := mkWaContact {
  wa_id : string;
  profile_name : option string
}.

(** An inbound message: the three base fields, and the rest of the
    message object ([type] and the part named after it). *)
Record InboundMessage : Type := mkInbound {
  msg_from : string;
  msg_id : string;
  msg_timestamp : string;
  msg_rest : list (string * JSValue)
}.

Definition message_object (m : InboundMessage) : JSValue :=
  JObj (("from", JStr (msg_from m)) :: ("id", JStr (msg_id m))
        :: ("timestamp", JStr (msg_timestamp m)) :: msg_rest m).

(** An entry of a status callback's [errors]; a missing field is
    [JUndefined]. *)
Record WhatsAppError : Type := mkWaError {
  err_code : JSValue;
  err_title : JSValue
}.

Record WhatsAppStatus : Type := mkWaStatus {
  st_id : string;
  st_status : string;
  st_timestamp : string;
  st_errors : option (list WhatsAppError)
}.

Record WebhookValue : Type := mkValue {
  v_phone_number_id : option string;
  v_contacts : option (list WhatsAppContact);
  v_messages : option (list InboundMessage);
  v_statuses : option (list WhatsAppStatus)
}.

Record WebhookChange : Type := mkChange {
  ch_field : string;
  ch_value : option WebhookValue
}.

Record WebhookPayload : Type := mkPayload {
  p_object : string;
  p_entry : list (list WebhookChange)
}.

(** The text a JSON value becomes in a [text] column. *)
Definition text_of (v : JSValue) : option string :=
  match v with
  | JUndefined | JNull => None
  | JStr s => Some s
  | other => JSON_stringify other
  end.

(** [org.whatsapp_access_token || process.env.WHATSAPP_ACCESS_TOKEN] *)
Definition access_token (org : Organization) : M (option string) :=
  fun w =>
    (Normal (match configured (o_whatsapp_access_token org) with
             | Some t => Some t
             | None => configured (env_access_token w)
             end), w).

(** ** generateProtocolNumber, lines 285-292 *)

Definition generateProtocolNumber : M string :=
  date <- new_Date_now ;;
  iso <- lift (toISOString date) ;;
  let dateStr := remove_dashes (String.substring 0 10 iso) in
  drawn <- Math_floor_random_99999 ;;
  let random := padStart (string_of_nat drawn) 5 "0" in
  ret (dateStr ++ "-" ++ random).

(** ** upsertContact, lines 299-365

    [yield] stands for what other invocations do to the world while this
    one is suspended between its lookup and its insert; the sequential
    function is [upsertContact]. *)

Definition contact_updates (name profilePicture : option string) (existing : Contact)
  : ContactUpdates :=
  mkContactUpdates
    (match configured name, configured (ct_name existing) with
     | Some n, None => Some n
     | _, _ => None
     end)
    (match configured profilePicture with
     | Some p =>
         if opt_string_eqb (ct_profile_picture_url existing) p then None else Some p
     | None => None
     end).

Definition has_changes (upd : ContactUpdates) : bool :=
  match upd_name upd, upd_profile_picture_url upd with
  | None, None => false
  | _, _ => true
  end.

Definition upsertContact_interleaved (yield : M unit) (orgId : uuid) (phone : string)
  (name profilePicture : option string) : M Contact :=
  found <- store_request (q_find_contact orgId phone) ;;
  match found with
  | Data existing =>
      let updates := contact_updates name profilePicture existing in
      if has_changes updates then
        updated <- store_request (q_update_contact (ct_id existing) updates) ;;
        match updated with
        | DbError _ _ => console_log "Error updating contact:" ;;; ret existing
        | Data row => ret row
        end
      else ret existing
  | DbError _ _ =>
      yield ;;;
      created <- store_request
                   (q_insert_contact orgId phone (configured name)
                      (configured profilePicture)) ;;
      match created with
      | DbError _ message => throw ("Failed to create contact: " ++ message)
      | Data row => ret row
      end
  end.

Definition upsertContact : uuid -> string -> option string -> option string -> M Contact :=
  upsertContact_interleaved (ret tt).

(** Another invocation that runs to completion while this one is
    suspended; its outcome is its own. *)
Definition concurrently {A} (other : M A) : M unit :=
  fun w => (Normal tt, snd (other w)).

(** ** findOrCreateConversation, lines 372-429 *)

(** Lines 392-428: create a new conversation and log it. *)
Definition createConversation (orgId contactId : uuid) : M Conversation :=
  protocolNumber <- generateProtocolNumber ;;
  created <- store_request (q_insert_conversation orgId contactId protocolNumber) ;;
  match created with
  | DbError _ message => throw ("Failed to create conversation: " ++ message)
  | Data row =>
      store_request (q_insert_protocol_log orgId (cv_id row) protocolNumber) ;;;
      ret row
  end.

Definition findOrCreateConversation (orgId contactId : uuid) : M Conversation :=
  found <- store_request (q_find_active_conversation orgId contactId) ;;
  match found with
  | Data (Some existing) => ret existing
  | _ => createConversation orgId contactId
  end.

(** ** assignAgent, lines 436-558

    The function awaits each of its requests to the store, in no
    transaction, and other invocations run while it is suspended.
    [others p] stands for what they do to the world between the request
    [p] and the next one; the sequential function, with nothing in
    between, is [assignAgent]. *)

Inductive Await : Type :=
| agents_read
| count_read (agentId : uuid)
| assignment_written
| protocol_number_read
| protocol_logged.

Definition AgentCount : Type := (CrmUser * Z)%type.

(** The comparator of lines 501-507. *)
Definition compare_agents (a b : AgentCount) : Z :=
  if (is_online (u_status (fst a)) && negb (is_online (u_status (fst b))))%bool then (-1)%Z
  else if (negb (is_online (u_status (fst a))) && is_online (u_status (fst b)))%bool then 1%Z
  else (snd a - snd b)%Z.

(** [Array.prototype.sort(compare)]: a stable sort. *)
Fixpoint sort_insert {A} (compare : A -> A -> Z) (x : A) (sorted : list A) : list A :=
  match sorted with
  | [] => [x]
  | y :: rest =>
      if (compare x y <=? 0)%Z then x :: y :: rest
      else y :: sort_insert compare x rest
  end.

Definition sort {A} (compare : A -> A -> Z) (l : list A) : list A :=
  fold_right (sort_insert compare) [] l.

(** [agentCounts.sort(...)] then [agentCounts[0]]. *)
Definition first_sorted (agentCounts : list AgentCount) : completion AgentCount :=
  match sort compare_agents agentCounts with
  | first :: _ => Normal first
  | [] => Throw "TypeError: Cannot read properties of undefined (reading 'agent')"
  end.

Section Interleaved.

Variable others : Await -> M unit.

(** The suspension after the request [p]. *)
Definition suspended (p : Await) : M unit := concurrently (others p).

(** The loop of lines 469-493. *)
Fixpoint count_agents (orgId : uuid) (agents : list CrmUser) : M (list AgentCount) :=
  match agents with
  | [] => ret []
  | agent :: rest =>
      counted <- store_request (q_count_open_conversations orgId (u_id agent)) ;;
      suspended (count_read (u_id agent)) ;;;
      match counted with
      | DbError _ _ =>
          console_log "Error counting conversations for agent" ;;;
          count_agents orgId rest
      | Data openCount =>
          if (u_max_concurrent_chats agent <=? openCount)%Z then count_agents orgId rest
          else
            rest_counts <- count_agents orgId rest ;;
            ret ((agent, openCount) :: rest_counts)
      end
  end.

(** Lines 526-554: the two log requests that follow an assignment. *)
Definition logAssignment (orgId conversationId : uuid) (selectedAgent : CrmUser) : M unit :=
  conv <- store_request (q_protocol_number_of conversationId) ;;
  suspended protocol_number_read ;;;
  match conv with
  | Data (Some protocolNumber) =>
      if String.eqb protocolNumber "" then ret tt
      else
        store_request (q_insert_protocol_log orgId conversationId protocolNumber) ;;;
        suspended protocol_logged
  | _ => ret tt
  end ;;;
  store_request
    (q_insert_activity_log orgId (u_id selectedAgent) "conversation_assigned") ;;;
  ret tt.

(** Lines 495-554: choose among the counted agents and assign. *)
Definition assignLeastBusy (orgId conversationId : uuid) (agentCounts : list AgentCount)
  : M unit :=
  match agentCounts with
  | [] => console_log "All agents are at max capacity in org:"
  | _ :: _ =>
      first <- lift (first_sorted agentCounts) ;;
      let selectedAgent := fst first in
      assigned <- store_request
                    (fun w => q_update_conversation conversationId
                                (with_assignment (u_id selectedAgent) (now w)) w) ;;
      suspended assignment_written ;;;
      match assigned with
      | DbError _ _ => console_log "Error assigning agent:"
      | Data _ => logAssignment orgId conversationId selectedAgent
      end
  end.

Definition assignAgent_interleaved (orgId conversationId : uuid) (queue : option string)
  : M unit :=
  try_catch
    (found <- store_request (q_available_agents orgId queue) ;;
     suspended agents_read ;;;
     match found with
     | DbError _ _ | Data [] =>
         console_log "No available agents found for assignment in org:"
     | Data agents =>
         agentCounts <- count_agents orgId agents ;;
         assignLeastBusy orgId conversationId agentCounts
     end)
    (fun _ => console_log "Error in assignAgent:").

End Interleaved.

(** No other invocation at work. *)
Definition alone : Await -> M unit := fun _ => ret tt.

Definition assignAgent : uuid -> uuid -> option string -> M unit :=
  assignAgent_interleaved alone.

(** ** processIncomingMessage, lines 89-230 *)

(** Step 4, lines 126-143: the media URL and MIME type to store. *)
Definition materializeMedia (extracted : Extracted) (accessToken : option string)
  (conversationId : uuid) : M (option string * option string) :=
  let mimeType0 := text_of (js_or (mimeType extracted) JNull) in
  match truthy (mediaId extracted), accessToken with
  | true, Some token =>
      try_catch
        (result <- api_call (UploadMediaToSupabase (to_string (mediaId extracted))
                               token conversationId) ;;
         ret (Some (fst result), Some (snd result)))
        (fun _ =>
           console_log "Error uploading media to Supabase:" ;;;
           ret (None, mimeType0))
  | _, _ => ret (None, mimeType0)
  end.

(** [new Date(parseInt(timestamp) * 1000).toISOString()], as an instant. *)
Definition message_instant (timestamp : string) : completion timestamptz :=
  let date := new_Date (option_map (fun s => (s * 1000)%Z) (parseInt timestamp)) in
  cbind (toISOString date)
    (fun _ => Normal (match date with Some t => t | None => 0%Z end)).

(** Steps 8 to 10, lines 193-226: assignment, auto-reply, read receipt. *)
Definition routeAndAcknowledge (org : Organization) (message : InboundMessage)
  (conversation : Conversation) (accessToken : option string) (phoneNumberId : string)
  : M unit :=
  (* 8. If no bot and conversation is pending, assign agent *)
  (if (status_is_pending (cv_status conversation)
       && match cv_assigned_agent_id conversation with
          | None => true
          | Some _ => false
          end)%bool
   then assignAgent (o_org_id org) (cv_id conversation) (cv_queue conversation)
   else ret tt) ;;;
  (* 9. Send auto-reply *)
  match status_is_pending (cv_status conversation),
        configured (o_auto_reply_message org), accessToken with
  | true, Some autoReply, Some token =>
      try_catch
        (api_call (SendTextMessage (msg_from message) autoReply phoneNumberId token) ;;;
         ret tt)
        (fun _ => console_log "Error sending auto-reply:")
  | _, _, _ => ret tt
  end ;;;
  (* 10. Mark message as read *)
  match accessToken with
  | Some token =>
      try_catch
        (api_call (MarkAsRead (msg_id message) phoneNumberId token) ;;; ret tt)
        (fun _ => console_log "Error marking message as read:")
  | None => ret tt
  end.

(** Steps 6 to 10, lines 171-226: what follows a stored message. *)
Definition afterSave (org : Organization) (message : InboundMessage)
  (conversation : Conversation) (accessToken : option string)
  (messagePreview : JSValue) (phoneNumberId : string) : M unit :=
  (* 6. Update conversation: last_message_at, preview, unread_count *)
  lastMessageAt <- lift (message_instant (msg_timestamp message)) ;;
  updated <- store_request
               (fun w =>
                  q_update_conversation (cv_id conversation)
                    (with_last_message lastMessageAt (text_of messagePreview)
                       (cv_unread_count conversation + 1)%Z (now w)) w) ;;
  match updated with
  | DbError _ _ => console_log "Error updating conversation:"
  | Data _ => ret tt
  end ;;;
  (* 7. If conversation has a bot active, skip agent assignment *)
  if cv_is_bot_active conversation then ret tt
  else routeAndAcknowledge org message conversation accessToken phoneNumberId.

(** Steps 3 to 10 for a resolved contact and conversation. *)
Definition storeAndRoute (org : Organization) (message : InboundMessage)
  (phoneNumberId : string) (contact : Contact) (conversation : Conversation) : M unit :=
  (* 3. Determine message type and extract content *)
  extracted <- lift (extractMessageContent (message_object message)) ;;
  (* 4. If media message, download and upload to storage *)
  accessToken <- access_token org ;;
  media <- materializeMedia extracted accessToken (cv_id conversation) ;;
  let mediaUrl := fst media in
  let mediaMimeType := snd media in
  let mediaFilename := text_of (js_or (filename extracted) JNull) in
  (* 5. Save message to crm_messages *)
  messagePreview <- lift (buildMessagePreview (messageType extracted)
                            (content extracted)) ;;
  saved <- store_request
             (q_insert_message (cv_id conversation) (ct_id contact)
                (messageType extracted) (text_of (content extracted))
                mediaUrl mediaMimeType mediaFilename (msg_id message)) ;;
  match saved with
  | DbError _ _ => console_log "Error saving message:"
  | Data _ => afterSave org message conversation accessToken messagePreview phoneNumberId
  end.

Definition sender_name (message : InboundMessage)
  (contacts : option (list WhatsAppContact)) : option string :=
  let contactProfile :=
    match contacts with
    | Some cs => find (fun c => String.eqb (wa_id c) (msg_from message)) cs
    | None => None
    end in
  match contactProfile with
  | Some c => configured (profile_name c)
  | None => None
  end.

Definition processIncomingMessage (org : Organization) (message : InboundMessage)
  (contacts : option (list WhatsAppContact)) (phoneNumberId : string) : M unit :=
  try_catch
    ((* 1. Upsert contact *)
     contact <- upsertContact (o_org_id org) (msg_from message)
                  (sender_name message contacts) None ;;
     (* 2. Find or create conversation *)
     conversation <- findOrCreateConversation (o_org_id org) (ct_id contact) ;;
     storeAndRoute org message phoneNumberId contact conversation)
    (fun _ => console_log "Error processing incoming message:").

(** ** processStatusUpdate, lines 236-278 *)

(** [statusMap[statusValue]]: one of the four statuses, a member inherited
    from [Object.prototype] (truthy, and no status), or [undefined]. *)
Inductive StatusLookup : Type :=
| Mapped (status : MessageStatus)
| Inherited
| Undefined.

Definition object_prototype_members : list string :=
  ["constructor"; "toString"; "toLocaleString"; "valueOf"; "hasOwnProperty";
   "isPrototypeOf"; "propertyIsEnumerable"; "__proto__"; "__defineGetter__";
   "__defineSetter__"; "__lookupGetter__"; "__lookupSetter__"].

Definition statusMap (statusValue : string) : StatusLookup :=
  if String.eqb statusValue "sent" then Mapped m_sent
  else if String.eqb statusValue "delivered" then Mapped m_delivered
  else if String.eqb statusValue "read" then Mapped m_read
  else if String.eqb statusValue "failed" then Mapped m_failed
  else if existsb (String.eqb statusValue) object_prototype_members then Inherited
  else Undefined.

(** [`${e.code}: ${e.title}`] *)
Definition error_summary (e : WhatsAppError) : string :=
  to_string (err_code e) ++ ": " ++ to_string (err_title e).

(** The [error_message] key of [updateData], lines 261-265. *)
Definition status_error_message (mappedStatus : MessageStatus)
  (errors : option (list WhatsAppError)) : option string :=
  match mappedStatus, errors with
  | m_failed, Some (e :: rest) => Some (join "; " (map error_summary (e :: rest)))
  | _, _ => None
  end.

Definition processStatusUpdate (status : WhatsAppStatus) : M unit :=
  try_catch
    (let waMessageId := st_id status in
     let statusValue := st_status status in
     let errors := st_errors status in
     match statusMap statusValue with
     | Undefined => ret tt
     | Inherited =>
         updated <- store_request (q_update_message_nothing waMessageId) ;;
         match updated with
         | DbError _ _ => console_log "Error updating message status:"
         | Data _ => ret tt
         end
     | Mapped mappedStatus =>
         updated <- store_request
                      (q_update_message_status waMessageId mappedStatus
                         (status_error_message mappedStatus errors)) ;;
         match updated with
         | DbError _ _ => console_log "Error updating message status:"
         | Data _ => ret tt
         end
     end)
    (fun _ => console_log "Error processing status update:").

(** ** processWebhookPayload, lines 23-83 *)

Fixpoint for_each {A} (f : A -> M unit) (items : list A) : M unit :=
  match items with
  | [] => ret tt
  | x :: rest => f x ;;; for_each f rest
  end.

Definition processChange (change : WebhookChange) : M unit :=
  if negb (String.eqb (ch_field change) "messages") then ret tt
  else
    match ch_value change with
    | None => ret tt
    | Some value =>
        match configured (v_phone_number_id value) with
        | None => ret tt
        | Some phoneNumberId =>
            found <- store_request (q_organization_by_phone_number_id phoneNumberId) ;;
            match found with
            | DbError _ _ => console_log "No organization found for phone_number_id:"
            | Data org =>
                match v_messages value with
                | Some messages =>
                    for_each (fun message =>
                                processIncomingMessage org message (v_contacts value)
                                  phoneNumberId) messages
                | None => ret tt
                end ;;;
                match v_statuses value with
                | Some statuses => for_each processStatusUpdate statuses
                | None => ret tt
                end
            end
        end
    end.

Definition processWebhookPayload (payload : WebhookPayload) : M unit :=
  try_catch
    (if negb (String.eqb (p_object payload) "whatsapp_business_account") then ret tt
     else for_each (for_each processChange) (p_entry payload))
    (fun _ => console_log "Error processing webhook payload:").

End Handler.

(* ===================================================================== *)
(** * Properties of content extraction                                     *)
(* ===================================================================== *)

Module ExtractFacts.
Import JS Extract.

Local Notation "x <- c ;; k" := (cbind c (fun x => k))
  (at level 61, c at next level, right associativity, only parsing).

Lemma get_prop_opt_total (v : JSValue) (p : string) :
  get_prop_opt v p =
  Normal (if nullish v then JUndefined
          else match get_prop v p with Normal x => x | Throw _ => JUndefined end).
Proof.
  unfold get_prop_opt. destruct v; simpl; try reflexivity.
  - destruct (String.eqb p "length"); reflexivity.
  - destruct (String.eqb p "length"); reflexivity.
Qed.

Lemma part_field_object (fields : list (string * JSValue)) (part field : string) :
  part_field (JObj fields) part field = Normal (field_of (JObj fields) part field).
Proof.
  unfold part_field, field_of. simpl. apply get_prop_opt_total.
Qed.

Lemma JSON_stringify_object (fields : list (string * JSValue)) :
  exists blob, JSON_stringify (JObj fields) = Some blob.
Proof. simpl. eexists. reflexivity. Qed.

(** A message that is not an object: reading its [type] throws. *)
Example extractMessageContent_null :
  exists e, extractMessageContent JNull = Throw e.
Proof. eexists. reflexivity. Qed.

Example extractMessageContent_image :
  extractMessageContent
    (JObj [("type", JStr "image");
           ("image", JObj [("id", JStr "m1"); ("mime_type", JStr "image/jpeg");
                           ("caption", JStr "our menu")])])
  = Normal (mkExtracted MT_image (JStr "our menu") (JStr "m1") (JStr "image/jpeg") JNull).
Proof. reflexivity. Qed.

Example extractMessageContent_location :
  option_map content
    (match extractMessageContent
             (JObj [("type", JStr "location");
                    ("location", JObj [("latitude", JNum "-23.55");
                                       ("longitude", JNum "-46.63");
                                       ("name", JStr "Office")])])
     with Normal r => Some r | Throw _ => None end)
  = Some (JStr ("{" ++ json_quote "latitude" ++ ":-23.55,"
                    ++ json_quote "longitude" ++ ":-46.63,"
                    ++ json_quote "name" ++ ":" ++ json_quote "Office" ++ "}")).
Proof. reflexivity. Qed.

Example extractMessageContent_unsupported :
  extractMessageContent (JObj [("type", JStr "interactive")])
  = Normal (mkExtracted MT_text (JStr "[Unsupported message type: interactive]")
              JNull JNull JNull).
Proof. reflexivity. Qed.

(** On a message object the extractor never throws. *)
Lemma extractMessageContent_object_normal (fields : list (string * JSValue)) :
  exists r, extractMessageContent (JObj fields) = Normal r.
Proof.
  unfold extractMessageContent. cbn [get_prop cbind].
  repeat rewrite part_field_object. cbn [cbind].
  repeat match goal with
         | |- context [if strict_eq_str ?v ?lit then _ else _] =>
             destruct (strict_eq_str v lit)
         end; eexists; reflexivity.
Qed.



(** ** The preview *)

(** Where ToString completes, its text is the one [to_string] gives. *)
Lemma ToString_to_string : forall (v : JSValue) (s : string),
  ToString v = Normal s -> s = to_string v.
Proof.
  fix IH 1. intros [| | b | n | s0 | items | fields] s H; cbn in H.
  1-5: (injection H as <-; reflexivity).
  - cbn [to_string].
    match type of H with
    | cbind ?parts _ = _ => destruct parts as [texts|e] eqn:Hparts; [|discriminate]
    end.
    cbn in H. injection H as <-. f_equal.
    revert texts Hparts. induction items as [|e rest IHrest]; intros texts Hparts.
    + injection Hparts as <-. reflexivity.
    + cbn [map].
      destruct (nullish e) eqn:He; cbn [cbind] in Hparts.
      * match type of Hparts with
        | cbind ?tail _ = _ => destruct tail as [others|err] eqn:Htail; [|discriminate]
        end.
        cbn in Hparts. injection Hparts as <-. f_equal. apply IHrest. reflexivity.
      * destruct (ToString e) as [part|err] eqn:Hpart; [|discriminate].
        cbn [cbind] in Hparts.
        match type of Hparts with
        | cbind ?tail _ = _ => destruct tail as [others|err] eqn:Htail; [|discriminate]
        end.
        cbn in Hparts. injection Hparts as <-.
        rewrite (IH e part Hpart). f_equal. apply IHrest. reflexivity.
  - destruct (has_own_property "toString" fields); [discriminate|].
    injection H as <-. reflexivity.
Qed.

(** The preview of a text body that is a string: the body, cut after 100
    code units. *)
Lemma buildMessagePreview_text (s : string) :
  buildMessagePreview MT_text (JStr s)
  = Normal (JStr (if (100 <? String.length s)%nat
                  then String.substring 0 100 s ++ "..." else s)).
Proof.
  destruct s as [|c rest]; [reflexivity|].
  cbn [buildMessagePreview truthy String.eqb negb length_exceeds_100 cbind truncate_100].
  destruct (100 <? String.length (String c rest))%nat; reflexivity.
Qed.

(** Bodies and captions that are no strings. *)
Example preview_of_a_number :
  buildMessagePreview MT_text (JNum "12345") = Normal (JNum "12345").
Proof. reflexivity. Qed.

Example preview_of_a_long_array :
  buildMessagePreview MT_text (JArr (repeat JNull 101))
  = Throw "TypeError: content.substring is not a function".
Proof. reflexivity. Qed.

Example preview_of_an_object_with_a_length :
  buildMessagePreview MT_text (JObj [("length", JStr " 0x65 ")])
  = Throw "TypeError: content.substring is not a function"
  /\ buildMessagePreview MT_text (JObj [("length", JNum "100")])
     = Normal (JObj [("length", JNum "100")])
  /\ buildMessagePreview MT_text (JObj [("length", JObj [("toString", JNull)])])
     = Throw "TypeError: Cannot convert object to primitive value".
Proof. vm_compute. repeat split. Qed.

Example preview_of_a_caption :
  buildMessagePreview MT_image (JStr "Menu") = Normal (JStr "[Imagem] Menu")
  /\ buildMessagePreview MT_image JNull = Normal (JStr "[Imagem]")
  /\ buildMessagePreview MT_image (JArr [JNum "1"; JNull; JStr "a"])
     = Normal (JStr "[Imagem] 1,,a")
  /\ buildMessagePreview MT_image (JObj [("toString", JNum "1")])
     = Throw "TypeError: Cannot convert object to primitive value".
Proof. vm_compute. repeat split. Qed.

(** [v > 100] at the edge: the decimal text half way between 100 and the
    next double rounds to 100. *)
Example exceeds_100_edge :
  exceeds_100 (JStr "100") = Normal false
  /\ exceeds_100 (JStr "100.000000000000007105427357601001858711242675781250")
     = Normal false
  /\ exceeds_100 (JStr "100.00000000000000710542735760100185871124267578125001")
     = Normal true
  /\ exceeds_100 (JStr "1e3") = Normal true
  /\ exceeds_100 (JStr "-Infinity") = Normal false
  /\ exceeds_100 (JStr "12px") = Normal false
  /\ exceeds_100 (JArr [JNum "200"]) = Normal true.
Proof. vm_compute. repeat split. Qed.


End ExtractFacts.

(* ===================================================================== *)
(** * Properties of the webhook route                                      *)
(* ===================================================================== *)

Module RouteFacts.
Import JS Route.

Lemma nat_of_ascii_inj (a b : ascii) : nat_of_ascii a = nat_of_ascii b -> a = b.
Proof.
  intros H. rewrite <- (ascii_nat_embedding a), <- (ascii_nat_embedding b).
  now rewrite H.
Qed.

Lemma bytes_eqb_eq (a b : list nat) : bytes_eqb a b = true <-> a = b.
Proof.
  revert b. induction a as [|x a IH]; destruct b as [|y b]; simpl;
    try (split; [discriminate | discriminate]); try tauto.
  rewrite Bool.andb_true_iff, Nat.eqb_eq, IH. split.
  - intros [-> ->]. reflexivity.
  - intros H. inversion H. auto.
Qed.

Lemma Buffer_from_inj (a b : string) : Buffer_from a = Buffer_from b -> a = b.
Proof.
  revert b. induction a as [|c a IH]; destruct b as [|d b]; simpl; try reflexivity.
  - unfold utf8_char. destruct (nat_of_ascii d <? 128)%nat; discriminate.
  - unfold utf8_char. destruct (nat_of_ascii c <? 128)%nat; discriminate.
  - unfold utf8_char.
    pose proof (Nat.div_mod_eq (nat_of_ascii c) 64) as Ec.
    pose proof (Nat.div_mod_eq (nat_of_ascii d) 64) as Ed.
    assert (Bc : (nat_of_ascii c mod 64 < 64)%nat)
      by (apply Nat.mod_upper_bound; discriminate).
    assert (Bd : (nat_of_ascii d mod 64 < 64)%nat)
      by (apply Nat.mod_upper_bound; discriminate).
    remember (nat_of_ascii c / 64)%nat as qc. remember (nat_of_ascii c mod 64)%nat as rc.
    remember (nat_of_ascii d / 64)%nat as qd. remember (nat_of_ascii d mod 64)%nat as rd.
    destruct (nat_of_ascii c <? 128)%nat eqn:Hc;
      destruct (nat_of_ascii d <? 128)%nat eqn:Hd;
      apply Nat.ltb_lt in Hc || apply Nat.ltb_ge in Hc;
      apply Nat.ltb_lt in Hd || apply Nat.ltb_ge in Hd;
      cbn [app]; intros H; inversion H as [[H0 H1]].
    + f_equal; [now apply nat_of_ascii_inj | now apply IH].
    + lia.
    + lia.
    + f_equal; [apply nat_of_ascii_inj; lia | now apply IH].
Qed.

(** [timingSafeEqual] decides string equality. *)
Lemma timingSafeEqual_true_iff (a b : string) : timingSafeEqual a b = true <-> a = b.
Proof.
  unfold timingSafeEqual, crypto_timingSafeEqual.
  destruct (String.length a =? String.length b)%nat eqn:Hlen; simpl.
  - destruct (List.length (Buffer_from a) =? List.length (Buffer_from b))%nat.
    + rewrite bytes_eqb_eq. split; [apply Buffer_from_inj | now intros ->].
    + apply String.eqb_eq.
  - split.
    + destruct (List.length (Buffer_from a) =? List.length (Buffer_from a))%nat;
        discriminate.
    + intros ->. rewrite Nat.eqb_refl in Hlen. discriminate.
Qed.

Lemma configured_Some (v : option string) (s : string) :
  configured v = Some s -> v = Some s.
Proof.
  unfold configured. destruct v as [t|]; [|discriminate].
  destruct (String.eqb t ""); [discriminate|]. intros H. exact H.
Qed.

Section Verification.

Variable hmac_sha256_hex : string -> string -> string.
Variable JSON_parse : string -> option JSValue.

Local Abbreviation POST' := (POST hmac_sha256_hex JSON_parse).
Local Abbreviation expected := (expected_signature hmac_sha256_hex).

(** C9. A request whose secret is unconfigured, whose signature header is
    absent, or whose header differs from [sha256=] followed by the hex
    HMAC-SHA256 of the raw body is answered with an error status, and
    neither [JSON.parse] nor the ingestion pipeline is reached. Whenever
    the body is parsed at all, the HMAC of that same raw body was computed
    first and the header equalled the expected signature. *)
Theorem POST_fails_closed (appSecret : option string) (request : NextRequest) :
  let result := POST' appSecret request in
  (unverified hmac_sha256_hex appSecret request ->
   400 <= response_status (fst result)
   /\ (forall payload, ~ In (ProcessWebhookPayload payload) (snd result))
   /\ (forall text, ~ In (JsonParse text) (snd result)))
  /\ (forall text, In (JsonParse text) (snd result) ->
      exists secret rest,
        configured appSecret = Some secret
        /\ header_signature request = Some (expected secret (request_text request))
        /\ text = request_text request
        /\ snd result = CreateHmac secret (request_text request)
                          :: JsonParse (request_text request) :: rest).
Proof.
  intros result. subst result. unfold POST.
  destruct (configured appSecret) as [secret|] eqn:Hsecret.
  2:{ cbn. split.
      - intros _. repeat split; try lia; intros ? [H|[]]; discriminate.
      - intros text [H|[]]; discriminate. }
  destruct (configured (header_signature request)) as [sig|] eqn:Hsig.
  2:{ cbn. split.
      - intros _. repeat split; try lia; intros ? [H|[]]; discriminate.
      - intros text [H|[]]; discriminate. }
  apply configured_Some in Hsig.
  destruct (timingSafeEqual sig (expected secret (request_text request))) eqn:Heq;
    cbn [negb fst snd response_status].
  - apply timingSafeEqual_true_iff in Heq. subst sig.
    split.
    + intros [Hu | [Hu | [secret' [Hs Hne]]]]; try congruence.
      apply configured_Some in Hsecret. congruence.
    + destruct (JSON_parse (request_text request)) as [payload|];
        cbn [fst snd];
        intros text [H | [H | [H | []]]]; try discriminate;
        inversion H; subst; do 2 eexists;
        (split; [reflexivity | split; [exact Hsig | split; reflexivity]]).
  - split.
    + intros _. repeat split; try lia; intros ? [H | [H | []]]; discriminate.
    + intros text [H | [H | []]]; discriminate.
Qed.

End Verification.

(** A request signed under another secret: status 401, nothing parsed. *)
Lemma POST_fails_closed_witness :
  let hmac := fun secret body : string => secret ++ body in
  let parse := fun _ : string => Some JNull in
  let request := mkRequest "{}" (Some "sha256=forged") in
  unverified hmac (Some "s3cret") request
  /\ 400 <= response_status (fst (POST hmac parse (Some "s3cret") request))
  /\ (forall payload,
        ~ In (ProcessWebhookPayload payload)
             (snd (POST hmac parse (Some "s3cret") request))).
Proof.
  intros hmac parse request.
  assert (Hu : unverified hmac (Some "s3cret") request).
  { right. right. exists "s3cret". split; [reflexivity | discriminate]. }
  split; [exact Hu|].
  destruct (POST_fails_closed hmac parse (Some "s3cret") request) as [Hbad _].
  destruct (Hbad Hu) as [Hstatus [Hpipe _]].
  split; [exact Hstatus | exact Hpipe].
Defined.

(** A correctly signed request is parsed and handed to the pipeline. *)
Example POST_accepts_signed :
  POST (fun secret body => secret ++ body) (fun _ => Some JNull) (Some "k")
       (mkRequest "{}" (Some "sha256=k{}"))
  = (mkResponse [("status", "ok")] 200,
     [CreateHmac "k" "{}"; JsonParse "{}"; ProcessWebhookPayload JNull]).
Proof. reflexivity. Qed.

End RouteFacts.

(* ===================================================================== *)
(** * Properties of the store and of the handler                           *)
(* ===================================================================== *)

Module HandlerFacts.
Import JS Extract Store Handler.

Unset Implicit Arguments.

(** ** Rows and updates *)




(** ** Delivery status tracking *)









(** A world with empty tables, whose store answers every request. *)
Definition empty_world (clock : timestamptz) : World :=
  mkWorld [] [] [] [] [] [] [] 1 clock None [] [] [] [] [].


(** An unknown status value, and a member inherited from
    [Object.prototype], change nothing. *)
Example processStatusUpdate_unknown_status :
  let sent_row := mkMessage 1 7 s_agent (Some 3) MT_text (Some "Hi") None None None
                    None None (Some "wamid.9") m_sent None None 0%Z in
  let w := set_crm_messages [sent_row] (empty_world 1793750400000%Z) in
  crm_messages (snd (processStatusUpdate (mkWaStatus "wamid.9" "deleted" "1" None) w))
  = [sent_row]
  /\ crm_messages (snd (processStatusUpdate (mkWaStatus "wamid.9" "constructor" "1" None) w))
     = [sent_row].
Proof. split; reflexivity. Qed.

(** ** Preservation through the monad

    [preserves R m]: every run of [m] relates the world it starts in to the
    world it leaves, for a reflexive and transitive [R]. *)

Definition preserves {A} (R : World -> World -> Prop) (m : M A) : Prop :=
  forall w, R w (snd (m w)).

Section Preservation.

Variable R : World -> World -> Prop.
Hypothesis R_refl : forall w, R w w.
Hypothesis R_trans : forall w1 w2 w3, R w1 w2 -> R w2 w3 -> R w1 w3.

Lemma preserves_ret {A} (a : A) : preserves R (ret a).
Proof. intros w. apply R_refl. Qed.

Lemma preserves_throw {A} (e : string) : preserves R (@throw A e).
Proof. intros w. apply R_refl. Qed.

Lemma preserves_lift {A} (c : completion A) : preserves R (lift c).
Proof. intros w. apply R_refl. Qed.

Lemma preserves_bind {A B} (m : M A) (k : A -> M B) :
  preserves R m -> (forall a, preserves R (k a)) -> preserves R (bind m k).
Proof.
  intros Hm Hk w. unfold bind. specialize (Hm w).
  destruct (m w) as [[a|e] w1]; simpl in *; [|exact Hm].
  eapply R_trans; [exact Hm | apply Hk].
Qed.

Lemma preserves_try_catch {A} (body : M A) (handler : string -> M A) :
  preserves R body -> (forall e, preserves R (handler e)) ->
  preserves R (try_catch body handler).
Proof.
  intros Hb Hh w. unfold try_catch. specialize (Hb w).
  destruct (body w) as [[a|e] w1]; simpl in *; [exact Hb|].
  eapply R_trans; [exact Hb | apply Hh].
Qed.

Lemma preserves_store_request {A} (q : Query A) :
  (forall w b rest, faults w = b :: rest -> R w (set_faults rest w)) ->
  (forall w, R w (snd (q w))) ->
  preserves R (store_request q).
Proof.
  intros Hf Hq w. unfold store_request.
  destruct (faults w) as [|[|] rest] eqn:Hfaults; simpl.
  - specialize (Hq w). destruct (q w); exact Hq.
  - apply (Hf w true rest Hfaults).
  - specialize (Hq (set_faults rest w)).
    destruct (q (set_faults rest w)); simpl in *.
    eapply R_trans; [apply (Hf w false rest Hfaults) | exact Hq].
Qed.

Lemma preserves_for_each {A} (f : A -> M unit) (items : list A) :
  (forall x, preserves R (f x)) -> preserves R (for_each f items).
Proof.
  intros Hf. induction items as [|x items IH]; simpl.
  - apply preserves_ret.
  - apply preserves_bind; [apply Hf | intros _; exact IH].
Qed.

End Preservation.

(** A handler wrapped in [try ... catch] that only logs never throws. *)
Lemma try_catch_log_normal (body : M unit) (msg : string) (w : World) :
  fst (try_catch body (fun _ => console_log msg) w) = Normal tt.
Proof.
  unfold try_catch, console_log.
  destruct (body w) as [[[]|e] w1]; reflexivity.
Qed.

Lemma store_request_answered {A} (q : Query A) (w : World) :
  faults w = [] -> store_request q w = (Normal (fst (q w)), snd (q w)).
Proof.
  intros H. unfold store_request. rewrite H. destruct (q w); reflexivity.
Qed.

(** ** Contact resolution *)

Lemma filter_none {A} (f : A -> bool) (l : list A) :
  existsb f l = false -> filter f l = [].
Proof.
  induction l as [|x l IH]; simpl; [reflexivity|].
  intros H. apply Bool.orb_false_iff in H as [Hx Hl].
  rewrite Hx. apply IH, Hl.
Qed.

Lemma existsb_app_last {A} (f : A -> bool) (l : list A) (x : A) :
  f x = true -> existsb f (l ++ [x]) = true.
Proof.
  intros H. rewrite existsb_app. simpl. rewrite H.
  rewrite Bool.orb_true_r. reflexivity.
Qed.

Lemma contact_matches_refl (orgId : uuid) (phone : string) (row : Contact) :
  ct_org_id row = orgId -> ct_phone row = phone ->
  contact_matches orgId phone row = true.
Proof.
  intros <- <-. unfold contact_matches.
  rewrite Nat.eqb_refl, String.eqb_refl. reflexivity.
Qed.

Definition duplicate_contact_error : string :=
  "Failed to create contact: duplicate key value violates unique constraint".

(** The row an insert creates, and the world it leaves. *)
Definition new_contact (w : World) (orgId : uuid) (phone : string)
  (name profilePicture : option string) : Contact :=
  mkContact (next_uuid w) orgId phone (configured name) (configured profilePicture)
    (JObj []) [] (now w) (now w).

Definition add_contact (row : Contact) (w : World) : World :=
  set_next_uuid (S (next_uuid w)) (set_crm_contacts (crm_contacts w ++ [row])%list w).

Lemma find_contact_none (w : World) (orgId : uuid) (phone : string) :
  faults w = [] ->
  existsb (contact_matches orgId phone) (crm_contacts w) = false ->
  exists code message,
    store_request (q_find_contact orgId phone) w = (Normal (DbError code message), w).
Proof.
  intros Hf Hnew. rewrite (store_request_answered _ w Hf).
  unfold q_find_contact. cbn [fst snd]. rewrite (filter_none _ _ Hnew).
  do 2 eexists. reflexivity.
Qed.

Lemma insert_contact_new (w : World) (orgId : uuid) (phone : string)
  (name profilePicture : option string) :
  faults w = [] ->
  existsb (contact_matches orgId phone) (crm_contacts w) = false ->
  store_request (q_insert_contact orgId phone (configured name)
                   (configured profilePicture)) w
  = (Normal (Data (new_contact w orgId phone name profilePicture)),
     add_contact (new_contact w orgId phone name profilePicture) w).
Proof.
  intros Hf Hnew. rewrite (store_request_answered _ w Hf).
  unfold q_insert_contact. rewrite Hnew. reflexivity.
Qed.

Lemma insert_contact_duplicate (w : World) (orgId : uuid) (phone : string)
  (name profilePicture : option string) :
  faults w = [] ->
  existsb (contact_matches orgId phone) (crm_contacts w) = true ->
  store_request (q_insert_contact orgId phone name profilePicture) w
  = (Normal unique_violation, w).
Proof.
  intros Hf Hdup. rewrite (store_request_answered _ w Hf).
  unfold q_insert_contact. rewrite Hdup. reflexivity.
Qed.

(** Sequential resolution of a new (org, phone) creates the contact. *)
Lemma upsertContact_new (w : World) (orgId : uuid) (phone : string)
  (name profilePicture : option string) :
  faults w = [] ->
  existsb (contact_matches orgId phone) (crm_contacts w) = false ->
  upsertContact orgId phone name profilePicture w
  = (Normal (new_contact w orgId phone name profilePicture),
     add_contact (new_contact w orgId phone name profilePicture) w).
Proof.
  intros Hf Hnew. unfold upsertContact, upsertContact_interleaved, bind.
  destruct (find_contact_none w orgId phone Hf Hnew) as (code & message & ->).
  cbn [ret]. rewrite (insert_contact_new w orgId phone name profilePicture Hf Hnew).
  reflexivity.
Qed.

(** C2, as the code has it. Two invocations resolve the same new
    (org, phone): the second one to insert finds no row, is suspended while
    the first creates the contact, and then inserts. Its insert violates
    the uniqueness of (org_id, phone) and [upsertContact] throws
    [Failed to create contact]; no second row is stored, and the only row
    of that (org, phone) is the one the first invocation returned. *)
Theorem upsertContact_race_loser_throws (w : World) (orgId : uuid) (phone : string)
  (nameA pictureA nameB pictureB : option string) :
  faults w = [] ->
  existsb (contact_matches orgId phone) (crm_contacts w) = false ->
  let winner := upsertContact orgId phone nameB pictureB in
  let loser :=
    upsertContact_interleaved (concurrently winner) orgId phone nameA pictureA in
  exists row,
    fst (winner w) = Normal row
    /\ fst (loser w) = Throw duplicate_contact_error
    /\ filter (contact_matches orgId phone) (crm_contacts (snd (loser w))) = [row].
Proof.
  intros Hfaults Hnew winner loser. subst winner loser.
  exists (new_contact w orgId phone nameB pictureB).
  unfold upsertContact_interleaved at 1 2, bind.
  destruct (find_contact_none w orgId phone Hfaults Hnew) as (code & message & ->).
  unfold concurrently.
  rewrite (upsertContact_new w orgId phone nameB pictureB Hfaults Hnew).
  cbn [fst snd].
  rewrite insert_contact_duplicate.
  - cbn [fst snd unique_violation throw].
    split; [reflexivity|]. split; [reflexivity|].
    unfold add_contact. cbn [crm_contacts set_next_uuid set_crm_contacts].
    rewrite filter_app, (filter_none _ _ Hnew). cbn [filter app].
    rewrite contact_matches_refl by reflexivity. reflexivity.
  - exact Hfaults.
  - unfold add_contact. cbn [crm_contacts set_next_uuid set_crm_contacts].
    apply existsb_app_last, contact_matches_refl; reflexivity.
Qed.

(** Two deliveries of a first message from +5511999990000 race. *)
Lemma upsertContact_race_loser_throws_witness :
  let w := empty_world 1793750400000%Z in
  let phone := "+5511999990000" in
  let winner := upsertContact 1 phone (Some "Ana") None in
  let loser := upsertContact_interleaved (concurrently winner) 1 phone (Some "Ana") None in
  faults w = []
  /\ existsb (contact_matches 1 phone) (crm_contacts w) = false
  /\ exists row,
       fst (winner w) = Normal row
       /\ fst (loser w) = Throw duplicate_contact_error
       /\ filter (contact_matches 1 phone) (crm_contacts (snd (loser w))) = [row].
Proof.
  intros w phone winner loser.
  split; [reflexivity|]. split; [reflexivity|].
  exact (upsertContact_race_loser_throws w 1 phone (Some "Ana") None (Some "Ana") None
           eq_refl eq_refl).
Defined.

(** C2 as stated fails: the losing invocation returns no contact row. *)
Lemma upsertContact_race_does_not_refetch :
  let w := empty_world 1793750400000%Z in
  let phone := "+5511999990000" in
  let winner := upsertContact 1 phone (Some "Ana") None in
  let loser := upsertContact_interleaved (concurrently winner) 1 phone (Some "Ana") None in
  ~ (exists row, fst (loser w) = Normal row).
Proof.
  intros w phone winner loser [row H]. vm_compute in H. discriminate.
Qed.

(** ** Protocol numbers and conversation resolution *)

Definition duplicate_conversation_error : string :=
  "Failed to create conversation: duplicate key value violates unique constraint".

Definition normal_value {A} (c : completion A) : option A :=
  match c with
  | Normal a => Some a
  | Throw _ => None
  end.

(** C3, on the code. The clock reads 2026-11-04T00:00:00Z (21:00 of
    November 3 in Sao Paulo) and [Math.random] draws 42 twice. The number
    is built from the UTC date and the draw; the second generation returns
    the number of the first, and the conversation of the second contact is
    not created: its insert violates the uniqueness of [protocol_number]
    and [findOrCreateConversation] throws. *)
Theorem generateProtocolNumber_collides :
  let w := set_random_draws [42; 42] (empty_world 1793750400000%Z) in
  let first := findOrCreateConversation 1 10 w in
  let second := findOrCreateConversation 1 11 (snd first) in
  option_map cv_protocol_number (normal_value (fst first)) = Some (Some "20261104-00042")
  /\ fst (generateProtocolNumber (snd first)) = Normal "20261104-00042"
  /\ fst second = Throw duplicate_conversation_error
  /\ map cv_contact_id (crm_conversations (snd second)) = [10].
Proof. vm_compute. repeat split. Qed.

(** The number generated depends on the clock and on the draw alone:
    nothing of the store enters it. *)
Lemma generateProtocolNumber_ignores_store (w w' : World) :
  now w = now w' ->
  hd 0 (random_draws w) = hd 0 (random_draws w') ->
  fst (generateProtocolNumber w) = fst (generateProtocolNumber w').
Proof.
  intros Hnow Hdraw.
  unfold generateProtocolNumber, bind, new_Date_now, lift, Math_floor_random_99999, ret.
  rewrite Hnow.
  destruct (toISOString (new_Date (Some (now w')))) as [iso|e]; [|reflexivity].
  destruct (random_draws w) as [|d rest], (random_draws w') as [|d' rest'];
    cbn in *; subst; reflexivity.
Qed.

(** The protocol numbers in use. *)
Definition protocol_numbers (rows : list Conversation) : list string :=
  flat_map (fun c => match cv_protocol_number c with
                     | Some n => [n]
                     | None => []
                     end) rows.

(** What does hold: the uniqueness constraint keeps the stored numbers
    distinct, by rejecting the insert of a number in use. *)
Lemma insert_conversation_keeps_numbers_distinct (w : World) (orgId contactId : uuid)
  (protocolNumber : string) :
  NoDup (protocol_numbers (crm_conversations w)) ->
  NoDup (protocol_numbers
           (crm_conversations (snd (q_insert_conversation orgId contactId protocolNumber w)))).
Proof.
  intros Hdistinct. unfold q_insert_conversation.
  destruct (existsb _ (crm_conversations w)) eqn:Hused; cbn [snd]; [exact Hdistinct|].
  cbn [crm_conversations set_next_uuid set_crm_conversations].
  unfold protocol_numbers in *. rewrite flat_map_app. cbn.
  apply NoDup_app; [exact Hdistinct | repeat constructor; intros [] |].
  intros n Hn [<- | []].
  apply in_flat_map in Hn. destruct Hn as [c [Hc Hcn]].
  assert (Hfalse : opt_string_eqb (cv_protocol_number c) protocolNumber = false).
  { apply Bool.not_true_is_false. intros Htrue.
    assert (Hex : existsb (fun c0 => opt_string_eqb (cv_protocol_number c0) protocolNumber)
                    (crm_conversations w) = true)
      by (apply existsb_exists; exists c; auto).
    congruence. }
  destruct (cv_protocol_number c) as [n|]; [|destruct Hcn].
  destruct Hcn as [-> | []]. cbn in Hfalse. rewrite String.eqb_refl in Hfalse.
  discriminate.
Qed.

(** A conversation of contact 10 that was closed earlier the same day. *)
Definition closed_conversation : Conversation :=
  mkConversation 5 1 10 (Some 3) None c_closed false None (JObj []) [] None
    (Some "20261104-00042") (Some 1793750400000%Z) (Some "bye") 0
    1793750400000%Z 1793750460000%Z.

(** C7, on the code. Contact 10 has one conversation, closed, numbered
    20261104-00042; a message arrives the same day and [Math.random] draws
    42. The closed conversation is not returned, and no conversation is
    created either: the generated number is the old one, the insert is
    rejected and [findOrCreateConversation] throws. *)
Theorem findOrCreateConversation_collides_with_closed :
  let w := set_random_draws [42]
             (set_crm_conversations [closed_conversation]
                (empty_world 1793750520000%Z)) in
  let run := findOrCreateConversation 1 10 w in
  fst run = Throw duplicate_conversation_error
  /\ crm_conversations (snd run) = [closed_conversation]
  /\ crm_protocol_log (snd run) = [].
Proof. vm_compute. repeat split. Qed.

(** The find step: the row it returns is a non-terminal conversation of the
    contact, and none of them was created later. *)
Lemma latest_created_In (rows : list Conversation) (c : Conversation) :
  latest_created rows = Some c -> In c rows.
Proof.
  revert c. induction rows as [|r rows IH]; simpl; [discriminate|].
  intros c. destruct (latest_created rows) as [r'|].
  - destruct (cv_created_at r <? cv_created_at r')%Z; intros H; inversion H; subst; auto.
  - intros H; inversion H; auto.
Qed.

Lemma latest_created_latest (rows : list Conversation) (c : Conversation) :
  latest_created rows = Some c ->
  forall r, In r rows -> (cv_created_at r <= cv_created_at c)%Z.
Proof.
  revert c. induction rows as [|x rows IH]; simpl; [discriminate|].
  intros c. destruct (latest_created rows) as [r'|] eqn:Hrest.
  - destruct (cv_created_at x <? cv_created_at r')%Z eqn:Hlt;
      intros H r [Hr|Hr]; inversion H; subst.
    + apply Z.ltb_lt in Hlt. lia.
    + apply (IH c eq_refl), Hr.
    + lia.
    + apply Z.ltb_ge in Hlt. specialize (IH r' eq_refl r Hr). lia.
  - intros H r [Hr|Hr]; inversion H; subst; [lia|].
    destruct rows; [destruct Hr | simpl in Hrest].
    destruct (latest_created rows) as [r'|];
      [destruct (cv_created_at c0 <? cv_created_at r')%Z|]; discriminate.
Qed.

(** What a request does, whatever the faults: it fails and changes no
    table, or it runs the query in a world that differs at most in the
    pending faults. *)
Lemma store_request_cases {A} (q : Query A) (w : World) :
  (exists code message rest,
      faults w = true :: rest
      /\ store_request q w = (Normal (DbError code message), set_faults rest w))
  \/ (exists w0, ((faults w = [] /\ w0 = w)
                  \/ exists rest, faults w = false :: rest /\ w0 = set_faults rest w)
                 /\ store_request q w = (Normal (fst (q w0)), snd (q w0))).
Proof.
  unfold store_request. destruct (faults w) as [|[|] rest].
  - right. exists w. split; [now left|]. destruct (q w); reflexivity.
  - left. do 3 eexists. split; reflexivity.
  - right. exists (set_faults rest w). split; [right; now exists rest|].
    destruct (q (set_faults rest w)); reflexivity.
Qed.

Lemma generateProtocolNumber_frame (w w1 : World) (protocolNumber : string) :
  generateProtocolNumber w = (Normal protocolNumber, w1) ->
  faults w1 = faults w
  /\ crm_conversations w1 = crm_conversations w
  /\ crm_protocol_log w1 = crm_protocol_log w.
Proof.
  unfold generateProtocolNumber, bind, new_Date_now, lift, Math_floor_random_99999, ret.
  destruct (toISOString (new_Date (Some (now w)))) as [iso|e]; [|discriminate].
  destruct (random_draws w) as [|d rest]; intros H; inversion H; subst; auto.
Qed.

Lemma createConversation_pending (w : World) (orgId contactId : uuid) (c : Conversation) :
  fst (createConversation orgId contactId w) = Normal c -> cv_status c = c_pending.
Proof.
  unfold createConversation, bind.
  destruct (generateProtocolNumber w) as [[pn|e] w2]; [|discriminate].
  destruct (store_request_cases (q_insert_conversation orgId contactId pn) w2)
    as [(code & message & rest & _ & ->) | (w0 & _ & ->)]; [discriminate|].
  unfold q_insert_conversation.
  destruct (existsb _ (crm_conversations w0)); cbn [fst snd unique_violation];
    [discriminate|].
  match goal with
  | |- context [store_request ?q ?w3] => destruct (store_request q w3) as [[r|e] w4]
  end; [|discriminate].
  cbn. intros H. inversion H. reflexivity.
Qed.

(** Whatever [findOrCreateConversation] returns is pending, open or
    waiting: a resolved or closed conversation is never returned. *)
Lemma findOrCreateConversation_never_terminal (w : World) (orgId contactId : uuid)
  (c : Conversation) :
  fst (findOrCreateConversation orgId contactId w) = Normal c ->
  status_in_pending_open_waiting (cv_status c) = true.
Proof.
  unfold findOrCreateConversation, bind.
  destruct (store_request_cases (q_find_active_conversation orgId contactId) w)
    as [(code & message & rest & _ & ->) | (w0 & Hw0 & ->)].
  - intros H. apply createConversation_pending in H. rewrite H. reflexivity.
  - unfold q_find_active_conversation. cbn [fst snd].
    destruct (latest_created _) as [existing|] eqn:Hfind.
    + cbn. intros H. inversion H. subst existing.
      apply latest_created_In, filter_In in Hfind. destruct Hfind as [_ Hactive].
      unfold active_conversation_of in Hactive.
      apply Bool.andb_true_iff in Hactive. tauto.
    + intros H. apply createConversation_pending in H. rewrite H. reflexivity.
Qed.

(** The two log inserts of the handler are refused: [action] and
    [details] are no columns of the tables. *)
Lemma insert_protocol_log_refused (orgId conversationId : uuid) (protocolNumber : string)
  (w : World) :
  q_insert_protocol_log orgId conversationId protocolNumber w
  = (unknown_column "action" "crm_protocol_log", w).
Proof. reflexivity. Qed.

Lemma insert_activity_log_refused (orgId agentId : uuid) (activityType : string)
  (w : World) :
  q_insert_activity_log orgId agentId activityType w
  = (unknown_column "details" "crm_agent_activity_log", w).
Proof. reflexivity. Qed.

(** With no non-terminal conversation of the contact, a store that answers
    and a generated number that is not in use, a new pending conversation
    is created; the protocol log gets no entry. *)
Lemma findOrCreateConversation_creates (w w1 : World) (orgId contactId : uuid)
  (protocolNumber : string) :
  faults w = [] ->
  filter (active_conversation_of orgId contactId) (crm_conversations w) = [] ->
  generateProtocolNumber w = (Normal protocolNumber, w1) ->
  existsb (fun c => opt_string_eqb (cv_protocol_number c) protocolNumber)
    (crm_conversations w) = false ->
  let run := findOrCreateConversation orgId contactId w in
  exists row,
    fst run = Normal row
    /\ cv_status row = c_pending
    /\ cv_contact_id row = contactId
    /\ cv_protocol_number row = Some protocolNumber
    /\ crm_conversations (snd run) = (crm_conversations w ++ [row])%list
    /\ crm_protocol_log (snd run) = crm_protocol_log w.
Proof.
  intros Hf Hnone Hgen Hfree run. subst run.
  destruct (generateProtocolNumber_frame w w1 protocolNumber Hgen) as (Hf1 & Hconv1 & Hlog1).
  rewrite Hf in Hf1.
  unfold findOrCreateConversation, bind.
  rewrite (store_request_answered _ w Hf).
  unfold q_find_active_conversation. cbn [fst snd]. rewrite Hnone. cbn [latest_created].
  unfold createConversation, bind.
  rewrite Hgen. rewrite (store_request_answered _ w1 Hf1).
  unfold q_insert_conversation. rewrite Hconv1, Hfree. cbn [fst snd].
  rewrite store_request_answered by exact Hf1.
  rewrite insert_protocol_log_refused.
  cbn. rewrite Hlog1. eexists. repeat split; reflexivity.
Qed.

(** ** Preservation through the steps of the handler

    What a relation between worlds must tolerate for a step to preserve
    it: the writes the step can make. *)

Section Steps.

Variable R : World -> World -> Prop.
Hypothesis R_refl : forall w, R w w.
Hypothesis R_trans : forall w1 w2 w3, R w1 w2 -> R w2 w3 -> R w1 w3.

Definition tolerates_faults : Prop :=
  forall w b rest, faults w = b :: rest -> R w (set_faults rest w).
Definition tolerates_console : Prop := forall l w, R w (set_console l w).
Definition tolerates_draws : Prop := forall l w, R w (set_random_draws l w).
Definition tolerates_outbox : Prop := forall l w, R w (set_outbox l w).
Definition tolerates_replies : Prop := forall l w, R w (set_api_replies l w).
Definition tolerates_contacts : Prop := forall l w, R w (set_crm_contacts l w).
Definition tolerates_next_uuid : Prop := forall n w, R w (set_next_uuid n w).
Definition tolerates_new_conversation : Prop :=
  forall orgId contactId protocolNumber w,
    R w (snd (q_insert_conversation orgId contactId protocolNumber w)).
Definition tolerates_conversation_update : Prop :=
  forall id f w, R w (snd (q_update_conversation id f w)).

Hypothesis R_faults : tolerates_faults.
Hypothesis R_console : tolerates_console.

Lemma preserves_request {A} (q : Query A) :
  (forall w, R w (snd (q w))) -> preserves R (store_request q).
Proof. apply preserves_store_request; [exact R_trans | exact R_faults]. Qed.

Lemma preserves_console_log (msg : string) : preserves R (console_log msg).
Proof. intros w. apply R_console. Qed.

Lemma preserves_access_token (org : Organization) : preserves R (access_token org).
Proof. intros w. apply R_refl. Qed.

Lemma preserves_api_call (call : ApiCall) :
  tolerates_outbox -> tolerates_replies -> preserves R (api_call call).
Proof.
  intros Ho Hr w. unfold api_call.
  destruct (api_replies (set_outbox (outbox w ++ [call]) w)) as [|[url mime|e] rest];
    cbn [snd]; [apply Ho | |]; (eapply R_trans; [apply Ho | apply Hr]).
Qed.

Lemma preserves_generateProtocolNumber :
  tolerates_draws -> preserves R generateProtocolNumber.
Proof.
  intros H w. unfold generateProtocolNumber, bind, new_Date_now, lift,
    Math_floor_random_99999, ret.
  destruct (toISOString (new_Date (Some (now w)))) as [iso|e]; [|apply R_refl].
  destruct (random_draws w) as [|d rest]; cbn [snd]; [apply R_refl | apply H].
Qed.

Lemma preserves_upsertContact (orgId : uuid) (phone : string)
  (name profilePicture : option string) :
  tolerates_contacts -> tolerates_next_uuid ->
  preserves R (upsertContact orgId phone name profilePicture).
Proof.
  intros Hc Hn. unfold upsertContact, upsertContact_interleaved.
  apply preserves_bind; [exact R_trans | apply preserves_request; intros w; apply R_refl |].
  intros [existing | code message].
  - destruct (has_changes (contact_updates name profilePicture existing));
      [|apply preserves_ret, R_refl].
    apply preserves_bind; [exact R_trans | |].
    + apply preserves_request. intros w. unfold q_update_contact.
      destruct (filter _ (crm_contacts w)) as [|c [|c' rows]];
        cbn [snd]; try apply R_refl. apply Hc.
    + intros [row | code' message']; [apply preserves_ret, R_refl|].
      apply preserves_bind; [exact R_trans | apply preserves_console_log |].
      intros ?. apply preserves_ret, R_refl.
  - apply preserves_bind; [exact R_trans | apply preserves_ret, R_refl |].
    intros ?. apply preserves_bind; [exact R_trans | |].
    + apply preserves_request. intros w. unfold q_insert_contact.
      destruct (existsb _ (crm_contacts w)); cbn [snd]; [apply R_refl|].
      eapply R_trans; [apply Hc | apply Hn].
    + intros [row | code' message']; [apply preserves_ret | apply preserves_throw];
        apply R_refl.
Qed.

Lemma preserves_createConversation (orgId contactId : uuid) :
  tolerates_draws -> tolerates_new_conversation ->
  preserves R (createConversation orgId contactId).
Proof.
  intros Hd Hnew. unfold createConversation.
  apply preserves_bind;
    [exact R_trans | apply preserves_generateProtocolNumber, Hd |].
  intros protocolNumber.
  apply preserves_bind; [exact R_trans | apply preserves_request; intros w; apply Hnew |].
  intros [row | code message]; [|apply preserves_throw, R_refl].
  apply preserves_bind; [exact R_trans | |intros ?; apply preserves_ret, R_refl].
  apply preserves_request. intros w. apply R_refl.
Qed.

Lemma preserves_findOrCreateConversation (orgId contactId : uuid) :
  tolerates_draws -> tolerates_new_conversation ->
  preserves R (findOrCreateConversation orgId contactId).
Proof.
  intros Hd Hnew. unfold findOrCreateConversation.
  apply preserves_bind; [exact R_trans | apply preserves_request; intros w; apply R_refl |].
  intros [[existing|] | code message];
    [apply preserves_ret, R_refl | |];
    apply preserves_createConversation; assumption.
Qed.

Lemma preserves_materializeMedia (extracted : Extracted) (accessToken : option string)
  (conversationId : uuid) :
  tolerates_outbox -> tolerates_replies ->
  preserves R (materializeMedia extracted accessToken conversationId).
Proof.
  intros Ho Hr. unfold materializeMedia.
  destruct (truthy (mediaId extracted)); [|apply preserves_ret, R_refl].
  destruct accessToken as [token|]; [|apply preserves_ret, R_refl].
  apply preserves_try_catch; [exact R_trans | |].
  - apply preserves_bind; [exact R_trans | apply preserves_api_call; assumption |].
    intros ?. apply preserves_ret, R_refl.
  - intros e. apply preserves_bind; [exact R_trans | apply preserves_console_log |].
    intros ?. apply preserves_ret, R_refl.
Qed.

(** While the run is suspended the other invocations keep [R] too. *)
Definition tolerates_others (others : Await -> M unit) : Prop :=
  forall p, preserves R (others p).

Lemma preserves_suspended (others : Await -> M unit) (p : Await) :
  tolerates_others others -> preserves R (suspended others p).
Proof. intros H w. apply (H p w). Qed.

Lemma preserves_logAssignment (others : Await -> M unit) (orgId conversationId : uuid)
  (agent : CrmUser) :
  tolerates_others others ->
  preserves R (logAssignment others orgId conversationId agent).
Proof.
  intros Ho. unfold logAssignment.
  apply preserves_bind; [exact R_trans | apply preserves_request; intros w; apply R_refl |].
  intros conv.
  apply preserves_bind; [exact R_trans | apply preserves_suspended, Ho |].
  intros ?. apply preserves_bind; [exact R_trans | |].
  - destruct conv as [[pn|]|code message]; try apply preserves_ret, R_refl.
    destruct (String.eqb pn ""); [apply preserves_ret, R_refl|].
    apply preserves_bind; [exact R_trans | |intros ?; apply preserves_suspended, Ho].
    apply preserves_request. intros w. apply R_refl.
  - intros ?.
    apply preserves_bind; [exact R_trans | |intros ?; apply preserves_ret, R_refl].
    apply preserves_request. intros w. apply R_refl.
Qed.

Lemma preserves_count_agents (others : Await -> M unit) (orgId : uuid)
  (agents : list CrmUser) :
  tolerates_others others -> preserves R (count_agents others orgId agents).
Proof.
  intros Ho. induction agents as [|agent agents IH]; cbn [count_agents];
    [apply preserves_ret, R_refl|].
  apply preserves_bind; [exact R_trans | apply preserves_request; intros w; apply R_refl |].
  intros counted.
  apply preserves_bind; [exact R_trans | apply preserves_suspended, Ho |].
  intros ?. destruct counted as [openCount | code message].
  - destruct (u_max_concurrent_chats agent <=? openCount)%Z; [exact IH|].
    apply preserves_bind; [exact R_trans | exact IH |].
    intros ?. apply preserves_ret, R_refl.
  - apply preserves_bind; [exact R_trans | apply preserves_console_log |].
    intros ?. exact IH.
Qed.

Lemma preserves_assignAgent_interleaved (others : Await -> M unit)
  (orgId conversationId : uuid) (queue : option string) :
  tolerates_others others -> tolerates_conversation_update ->
  preserves R (assignAgent_interleaved others orgId conversationId queue).
Proof.
  intros Ho Hu. unfold assignAgent_interleaved.
  apply preserves_try_catch; [exact R_trans | | intros e; apply preserves_console_log].
  apply preserves_bind; [exact R_trans | apply preserves_request; intros w; apply R_refl |].
  intros found.
  apply preserves_bind; [exact R_trans | apply preserves_suspended, Ho |].
  intros ?. destruct found as [[|agent agents] | code message];
    try apply preserves_console_log.
  apply preserves_bind; [exact R_trans | apply preserves_count_agents, Ho |].
  intros [|c cs]; unfold assignLeastBusy; [apply preserves_console_log|].
  apply preserves_bind; [exact R_trans | apply preserves_lift, R_refl |].
  intros first.
  apply preserves_bind; [exact R_trans | apply preserves_request; intros w; apply Hu |].
  intros assigned.
  apply preserves_bind; [exact R_trans | apply preserves_suspended, Ho |].
  intros ?. destruct assigned as [[] | code message]; [|apply preserves_console_log].
  apply preserves_logAssignment, Ho.
Qed.

Lemma preserves_assignAgent (orgId conversationId : uuid) (queue : option string) :
  tolerates_conversation_update ->
  preserves R (assignAgent orgId conversationId queue).
Proof.
  intros Hu. apply preserves_assignAgent_interleaved; [|exact Hu].
  intros p w. apply R_refl.
Qed.

Lemma preserves_routeAndAcknowledge (org : Organization) (message : InboundMessage)
  (conversation : Conversation) (accessToken : option string) (phoneNumberId : string) :
  tolerates_conversation_update -> tolerates_outbox -> tolerates_replies ->
  preserves R (routeAndAcknowledge org message conversation accessToken phoneNumberId).
Proof.
  intros Hu Ho Hr. unfold routeAndAcknowledge.
  apply preserves_bind; [exact R_trans | |].
  { destruct (_ && _)%bool; [apply preserves_assignAgent; assumption|].
    apply preserves_ret, R_refl. }
  intros ?. apply preserves_bind; [exact R_trans | |].
  { destruct (status_is_pending (cv_status conversation));
      [|apply preserves_ret, R_refl].
    destruct (configured (o_auto_reply_message org)); [|apply preserves_ret, R_refl].
    destruct accessToken; [|apply preserves_ret, R_refl].
    apply preserves_try_catch; [exact R_trans | | intros e; apply preserves_console_log].
    apply preserves_bind; [exact R_trans | apply preserves_api_call; assumption |].
    intros ?. apply preserves_ret, R_refl. }
  intros ?. destruct accessToken; [|apply preserves_ret, R_refl].
  apply preserves_try_catch; [exact R_trans | | intros e; apply preserves_console_log].
  apply preserves_bind; [exact R_trans | apply preserves_api_call; assumption |].
  intros ?. apply preserves_ret, R_refl.
Qed.

Lemma preserves_afterSave (org : Organization) (message : InboundMessage)
  (conversation : Conversation) (accessToken : option string)
  (messagePreview : JSValue) (phoneNumberId : string) :
  tolerates_conversation_update -> tolerates_outbox -> tolerates_replies ->
  preserves R (afterSave org message conversation accessToken messagePreview phoneNumberId).
Proof.
  intros Hu Ho Hr. unfold afterSave.
  apply preserves_bind; [exact R_trans | apply preserves_lift, R_refl |].
  intros lastMessageAt.
  apply preserves_bind; [exact R_trans | apply preserves_request; intros w; apply Hu |].
  intros updated. apply preserves_bind; [exact R_trans | |].
  { destruct updated; [apply preserves_ret, R_refl | apply preserves_console_log]. }
  intros ?. destruct (cv_is_bot_active conversation); [apply preserves_ret, R_refl|].
  apply preserves_routeAndAcknowledge; assumption.
Qed.

End Steps.

(** *** Views a step keeps, and a store that keeps answering

    [same_view view]: the two worlds agree on [view]. *)

Definition same_view {V} (view : World -> V) (w w' : World) : Prop := view w' = view w.

Lemma same_view_refl {V} (view : World -> V) (w : World) : same_view view w w.
Proof. reflexivity. Qed.

Lemma same_view_trans {V} (view : World -> V) (w1 w2 w3 : World) :
  same_view view w1 w2 -> same_view view w2 w3 -> same_view view w1 w3.
Proof. unfold same_view. congruence. Qed.

(** A store that answers every request keeps doing so. *)
Definition stays_reliable (w w' : World) : Prop := faults w = [] -> faults w' = [].

Lemma stays_reliable_refl (w : World) : stays_reliable w w.
Proof. intros H. exact H. Qed.

Lemma stays_reliable_trans (w1 w2 w3 : World) :
  stays_reliable w1 w2 -> stays_reliable w2 w3 -> stays_reliable w1 w3.
Proof. unfold stays_reliable. auto. Qed.

(** The obligations of the lemmas above, for a projection of the world or
    for [stays_reliable]. *)
Ltac tolerated :=
  first
    [ intros ? ? ? ?; reflexivity
    | intros ? ? ?; reflexivity
    | intros ? ?; reflexivity
    | intros ? ? ? ? ?; cbn in *; congruence
    | intros ? ? ? ?; cbn in *; congruence
    | intros ? ? ?; cbn in *; congruence ].

Lemma try_catch_log_view {V} (view : World -> V) (body : M unit) (msg : string)
  (w : World) :
  tolerates_console (same_view view) ->
  view (snd (try_catch body (fun _ => console_log msg) w)) = view (snd (body w)).
Proof.
  intros H. unfold try_catch. destruct (body w) as [[a|e] w1]; [reflexivity|].
  apply H.
Qed.

(** ** Agent assignment *)

(** The agents the first query of [assignAgent] returns. *)
Definition candidates (orgId : uuid) (queue : option string) (w : World) : list CrmUser :=
  filter (fun u => ((u_org_id u =? orgId)%nat
                    && status_in_online_away (u_status u)
                    && role_in_agent_admin_owner (u_role u)
                    && handles_queue queue u)%bool)
    (crm_users w).

Definition at_capacity (orgId : uuid) (rows : list Conversation) (agent : CrmUser) : bool :=
  (u_max_concurrent_chats agent <=? open_count orgId (u_id agent) rows)%Z.

(** The candidates below their cap, with their open counts, in query order. *)
Definition eligible (orgId : uuid) (rows : list Conversation) (agents : list CrmUser)
  : list AgentCount :=
  map (fun agent => (agent, open_count orgId (u_id agent) rows))
    (filter (fun agent => negb (at_capacity orgId rows agent)) agents).

(** What the other invocations may be assumed to leave alone while a run
    is suspended: the conversation rows, the clock, a store that answers. *)
Definition quiet (others : Await -> M unit) : Prop :=
  forall p w, crm_conversations (snd (others p w)) = crm_conversations w.

Definition keeps_clock (others : Await -> M unit) : Prop :=
  forall p w, now (snd (others p w)) = now w.

Definition keeps_reliable (others : Await -> M unit) : Prop :=
  forall p w, faults w = [] -> faults (snd (others p w)) = [].

Lemma alone_quiet : quiet alone.
Proof. intros p w. reflexivity. Qed.

Lemma alone_keeps_clock : keeps_clock alone.
Proof. intros p w. reflexivity. Qed.

Lemma alone_keeps_reliable : keeps_reliable alone.
Proof. intros p w H. exact H. Qed.

(** What the counting loop returns while the others are quiet: only agents
    of the list, each with its true open count, each below its cap; the
    conversations are not touched. With a store that answers it returns
    all of them. *)
Lemma count_agents_spec (others : Await -> M unit) (orgId : uuid) (agents : list CrmUser)
  (w : World) :
  quiet others ->
  exists counted w1,
    count_agents others orgId agents w = (Normal counted, w1)
    /\ crm_conversations w1 = crm_conversations w
    /\ incl counted (eligible orgId (crm_conversations w) agents)
    /\ (keeps_clock others -> now w1 = now w)
    /\ (keeps_reliable others -> faults w = [] ->
        counted = eligible orgId (crm_conversations w) agents /\ faults w1 = []).
Proof.
  intros Hquiet. revert w. induction agents as [|agent agents IH]; intros w.
  - exists [], w. cbn. repeat split; auto. apply incl_refl.
  - cbn [count_agents]. unfold bind at 1.
    destruct (store_request_cases (q_count_open_conversations orgId (u_id agent)) w)
      as [(code & message & rest & Hfault & Hreq) | (w0 & Hw0 & Hreq)]; rewrite Hreq.
    + unfold bind at 1, suspended, concurrently. unfold bind at 1, console_log.
      match goal with
      | |- context [count_agents others orgId agents ?w2] =>
          destruct (IH w2) as (counted & w1 & Hrun & Hconv & Hincl & Hclock & Hall);
          assert (Hc2 : crm_conversations w2 = crm_conversations w)
            by (cbn; rewrite Hquiet; reflexivity)
      end.
      rewrite Hrun. exists counted, w1. rewrite Hc2 in Hconv, Hincl.
      split; [reflexivity|]. split; [exact Hconv|].
      split.
      * unfold eligible in *. cbn [filter].
        destruct (negb (at_capacity orgId (crm_conversations w) agent));
          [apply incl_tl|]; exact Hincl.
      * split; [|intros _ Hf; congruence].
        intros Hk. rewrite (Hclock Hk). cbn. rewrite Hk. reflexivity.
    + assert (Hsame : crm_conversations w0 = crm_conversations w
                      /\ now w0 = now w
                      /\ (faults w = [] -> faults w0 = [])).
      { destruct Hw0 as [[Hf ->] | (rest & Hf & ->)]; [auto|].
        cbn. repeat split. congruence. }
      destruct Hsame as (Hconv0 & Hnow0 & Hf0).
      unfold q_count_open_conversations. cbn [fst snd]. rewrite Hconv0.
      unfold bind at 1, suspended, concurrently.
      set (w2 := snd (others (count_read (u_id agent)) w0)).
      assert (Hc2 : crm_conversations w2 = crm_conversations w)
        by (unfold w2; rewrite Hquiet; exact Hconv0).
      destruct (IH w2) as (counted & w1 & Hrun & Hconv & Hincl & Hclock & Hall).
      rewrite Hc2 in Hconv, Hincl, Hall.
      change (u_max_concurrent_chats agent
              <=? open_count orgId (u_id agent) (crm_conversations w))%Z
        with (at_capacity orgId (crm_conversations w) agent).
      unfold eligible. cbn [filter].
      destruct (at_capacity orgId (crm_conversations w) agent); cbn [negb].
      * exists counted, w1.
        split; [exact Hrun|]. split; [exact Hconv|]. split; [exact Hincl|].
        split.
        -- intros Hk. rewrite (Hclock Hk). unfold w2. rewrite Hk. exact Hnow0.
        -- intros Hr Hf. apply (Hall Hr). unfold w2. apply Hr, Hf0, Hf.
      * unfold bind. rewrite Hrun. unfold ret.
        exists ((agent, open_count orgId (u_id agent) (crm_conversations w)) :: counted), w1.
        cbn [map].
        split; [reflexivity|]. split; [exact Hconv|].
        split; [intros x [<- | Hx]; [now left | right; apply Hincl, Hx]|].
        split.
        -- intros Hk. rewrite (Hclock Hk). unfold w2. rewrite Hk. exact Hnow0.
        -- intros Hr Hf.
           destruct (Hall Hr) as [-> Hf1]; [unfold w2; apply Hr, Hf0, Hf|].
           split; [reflexivity | exact Hf1].
Qed.


(** *** The sort and the comparator *)

Lemma sort_insert_In {A} (compare : A -> A -> Z) (x y : A) (l : list A) :
  In y (sort_insert compare x l) <-> y = x \/ In y l.
Proof.
  induction l as [|h l IH]; simpl.
  - intuition.
  - destruct (compare x h <=? 0)%Z; simpl; [intuition|].
    rewrite IH. intuition.
Qed.

Lemma sort_In {A} (compare : A -> A -> Z) (y : A) (l : list A) :
  In y (sort compare l) <-> In y l.
Proof.
  unfold sort. induction l as [|h l IH]; simpl; [tauto|].
  rewrite sort_insert_In, IH. intuition.
Qed.

Lemma compare_agents_refl (a : AgentCount) : (compare_agents a a <= 0)%Z.
Proof.
  unfold compare_agents. destruct (is_online (u_status (fst a))); simpl; lia.
Qed.

Lemma compare_agents_total (a b : AgentCount) :
  (0 < compare_agents a b)%Z -> (compare_agents b a <= 0)%Z.
Proof.
  unfold compare_agents.
  destruct (is_online (u_status (fst a))), (is_online (u_status (fst b))); simpl; lia.
Qed.

Lemma compare_agents_trans (a b c : AgentCount) :
  (compare_agents a b <= 0)%Z -> (compare_agents b c <= 0)%Z ->
  (compare_agents a c <= 0)%Z.
Proof.
  unfold compare_agents.
  destruct (is_online (u_status (fst a))), (is_online (u_status (fst b))),
    (is_online (u_status (fst c))); simpl; lia.
Qed.

(** The first element after sorting precedes every element. *)
Lemma sort_head_least (l : list AgentCount) (first : AgentCount) (rest : list AgentCount) :
  sort compare_agents l = first :: rest ->
  forall other, In other l -> (compare_agents first other <= 0)%Z.
Proof.
  revert first rest. unfold sort.
  induction l as [|x l IH]; simpl; [discriminate|].
  intros first rest Hsort other Hother.
  destruct (fold_right (sort_insert compare_agents) [] l) as [|h sorted] eqn:Hl.
  - simpl in Hsort. inversion Hsort; subst.
    destruct Hother as [<- | Hother]; [apply compare_agents_refl|].
    apply (sort_In compare_agents) in Hother. unfold sort in Hother.
    rewrite Hl in Hother. destruct Hother.
  - simpl in Hsort. specialize (IH h sorted eq_refl).
    destruct (compare_agents x h <=? 0)%Z eqn:Hcmp; inversion Hsort; subst.
    + apply Z.leb_le in Hcmp.
      destruct Hother as [<- | Hother]; [apply compare_agents_refl|].
      eapply compare_agents_trans; [exact Hcmp | apply IH, Hother].
    + apply Z.leb_gt in Hcmp.
      destruct Hother as [<- | Hother]; [|apply IH, Hother].
      apply compare_agents_total. lia.
Qed.

Lemma first_sorted_In (l : list AgentCount) (first : AgentCount) :
  first_sorted l = Normal first -> In first l.
Proof.
  unfold first_sorted. destruct (sort compare_agents l) as [|h rest] eqn:Hsort;
    [discriminate|].
  intros H. inversion H. subst h. apply (sort_In compare_agents).
  rewrite Hsort. now left.
Qed.

Lemma first_sorted_nonempty (l : list AgentCount) :
  l <> [] -> exists first, first_sorted l = Normal first.
Proof.
  intros Hne. unfold first_sorted.
  destruct (sort compare_agents l) as [|h rest] eqn:Hsort; [|now exists h].
  destruct l as [|x l]; [congruence|].
  assert (Hin : In x (sort compare_agents (x :: l))) by (apply sort_In; now left).
  rewrite Hsort in Hin. destruct Hin.
Qed.

(** Online before away, then fewest open conversations. *)
Lemma first_sorted_preferred (l : list AgentCount) (first : AgentCount) :
  first_sorted l = Normal first ->
  forall other, In other l ->
    (is_online (u_status (fst other)) = true -> is_online (u_status (fst first)) = true)
    /\ (is_online (u_status (fst other)) = is_online (u_status (fst first)) ->
        (snd first <= snd other)%Z).
Proof.
  unfold first_sorted. destruct (sort compare_agents l) as [|h rest] eqn:Hsort;
    [discriminate|].
  intros H other Hother. inversion H. subst h.
  pose proof (sort_head_least l first rest Hsort other Hother) as Hle.
  unfold compare_agents in Hle.
  destruct (is_online (u_status (fst first))), (is_online (u_status (fst other)));
    simpl in Hle; split; intros; try reflexivity; try discriminate; lia.
Qed.

(** *** Open counts across an assignment *)

Definition assign_rows (conversationId agentId : uuid) (t : timestamptz)
  (rows : list Conversation) : list Conversation :=
  update_rows (fun c => (cv_id c =? conversationId)%nat) (with_assignment agentId t) rows.






(** *** What an assignment run does to the conversations *)

Lemma store_request_cases_views {A} (q : Query A) (w : World) :
  (exists code message w1,
      store_request q w = (Normal (DbError code message), w1)
      /\ faults w <> []
      /\ crm_conversations w1 = crm_conversations w
      /\ crm_users w1 = crm_users w /\ now w1 = now w)
  \/ (exists w0,
         store_request q w = (Normal (fst (q w0)), snd (q w0))
         /\ crm_conversations w0 = crm_conversations w
         /\ crm_users w0 = crm_users w /\ now w0 = now w
         /\ (faults w = [] -> faults w0 = [])).
Proof.
  destruct (store_request_cases q w)
    as [(code & message & rest & Hf & Hreq)
       | (w0 & [[Hf ->] | (rest & Hf & ->)] & Hreq)].
  - left. exists code, message, (set_faults rest w).
    repeat split; auto. congruence.
  - right. exists w. auto.
  - right. exists (set_faults rest w). repeat split; auto. congruence.
Qed.

Lemma ignores_console_conversations : tolerates_console (same_view crm_conversations).
Proof. intros l w. reflexivity. Qed.

Lemma logAssignment_conversations (others : Await -> M unit)
  (orgId conversationId : uuid) (agent : CrmUser) (w : World) :
  quiet others ->
  crm_conversations (snd (logAssignment others orgId conversationId agent w))
  = crm_conversations w.
Proof.
  intros Hquiet.
  apply (preserves_logAssignment (same_view crm_conversations));
    first [apply same_view_refl | apply same_view_trans | tolerated | idtac].
  intros p w0. apply Hquiet.
Qed.

(** A run of [assignAgent], the others being quiet, leaves the
    conversations as they are, or assigns the conversation to an eligible
    candidate: one of the agents the query returned whose open count is
    below the cap. *)
Lemma assignAgent_interleaved_outcome (others : Await -> M unit) (w : World)
  (orgId conversationId : uuid) (queue : option string) :
  quiet others ->
  crm_conversations (snd (assignAgent_interleaved others orgId conversationId queue w))
  = crm_conversations w
  \/ exists chosen t,
       In chosen (eligible orgId (crm_conversations w) (candidates orgId queue w))
       /\ crm_conversations
            (snd (assignAgent_interleaved others orgId conversationId queue w))
          = assign_rows conversationId (u_id (fst chosen)) t (crm_conversations w)
       /\ (keeps_clock others -> t = now w).
Proof.
  intros Hquiet.
  remember (crm_conversations
              (snd (assignAgent_interleaved others orgId conversationId queue w)))
    as rows' eqn:Hrows.
  unfold assignAgent_interleaved in Hrows.
  rewrite (try_catch_log_view crm_conversations) in Hrows
    by apply ignores_console_conversations.
  unfold bind at 1 in Hrows.
  destruct (store_request_cases_views (q_available_agents orgId queue) w)
    as [(code & msg & w1 & Hreq & Hf & Hc & Hu & Hn)
       | (w0 & Hreq & Hc & Hu & Hn & Hf)]; rewrite Hreq in Hrows;
    unfold bind at 1, suspended, concurrently in Hrows.
  { left. cbn in Hrows. rewrite Hquiet in Hrows. congruence. }
  unfold q_available_agents in Hrows. cbn [fst snd] in Hrows.
  fold (candidates orgId queue w0) in Hrows.
  replace (candidates orgId queue w0) with (candidates orgId queue w) in Hrows
    by (unfold candidates; rewrite Hu; reflexivity).
  set (wa := snd (others agents_read w0)) in Hrows.
  assert (Hca : crm_conversations wa = crm_conversations w)
    by (unfold wa; rewrite Hquiet; exact Hc).
  destruct (candidates orgId queue w) as [|agent agents] eqn:Hcand.
  { left. cbn in Hrows. congruence. }
  unfold bind in Hrows.
  destruct (count_agents_spec others orgId (agent :: agents) wa Hquiet)
    as (counted & w1 & Hrun & Hc1 & Hincl & Hclock & Hall).
  rewrite Hca in Hc1, Hincl.
  rewrite Hrun in Hrows. unfold assignLeastBusy in Hrows.
  destruct counted as [|c cs].
  { left. cbn in Hrows. congruence. }
  unfold bind, lift in Hrows.
  destruct (first_sorted (c :: cs)) as [first|e] eqn:Hfirst.
  2:{ left. cbn in Hrows. congruence. }
  destruct (store_request_cases_views
              (fun w2 => q_update_conversation conversationId
                           (with_assignment (u_id (fst first)) (now w2)) w2) w1)
    as [(code & msg & w2 & Hreq2 & Hf2 & Hc2 & Hu2 & Hn2)
       | (w2 & Hreq2 & Hc2 & Hu2 & Hn2 & Hf2)]; rewrite Hreq2 in Hrows;
    unfold suspended, concurrently in Hrows.
  { left. cbn in Hrows. rewrite Hquiet in Hrows. congruence. }
  right. exists first, (now w2). split; [apply Hincl, first_sorted_In, Hfirst|].
  split.
  - unfold q_update_conversation in Hrows. cbn [fst snd] in Hrows.
    rewrite logAssignment_conversations in Hrows by exact Hquiet.
    rewrite Hquiet in Hrows.
    cbn [crm_conversations set_crm_conversations] in Hrows.
    unfold assign_rows. congruence.
  - intros Hk. rewrite Hn2, (Hclock Hk). unfold wa. rewrite Hk. exact Hn.
Qed.

Lemma assignAgent_outcome (w : World) (orgId conversationId : uuid)
  (queue : option string) :
  crm_conversations (snd (assignAgent orgId conversationId queue w))
  = crm_conversations w
  \/ exists chosen,
       In chosen (eligible orgId (crm_conversations w) (candidates orgId queue w))
       /\ crm_conversations (snd (assignAgent orgId conversationId queue w))
          = assign_rows conversationId (u_id (fst chosen)) (now w) (crm_conversations w).
Proof.
  destruct (assignAgent_interleaved_outcome alone w orgId conversationId queue alone_quiet)
    as [Hsame | (chosen & t & Hin & Hrows & Ht)]; [left; exact Hsame|].
  right. exists chosen. rewrite <- (Ht alone_keeps_clock). auto.
Qed.

(** With a store that answers, the conversation goes to the first of the
    eligible candidates in sorted order. *)
Lemma assignAgent_answered (w : World) (orgId conversationId : uuid)
  (queue : option string) (chosen : AgentCount) :
  faults w = [] ->
  first_sorted (eligible orgId (crm_conversations w) (candidates orgId queue w))
  = Normal chosen ->
  crm_conversations (snd (assignAgent orgId conversationId queue w))
  = assign_rows conversationId (u_id (fst chosen)) (now w) (crm_conversations w).
Proof.
  intros Hf Hchosen. unfold assignAgent, assignAgent_interleaved.
  rewrite (try_catch_log_view crm_conversations) by apply ignores_console_conversations.
  unfold bind at 1. rewrite (store_request_answered _ w Hf).
  unfold q_available_agents. cbn [fst snd].
  fold (candidates orgId queue w).
  unfold bind at 1, suspended, concurrently, alone. cbn [ret fst snd].
  destruct (candidates orgId queue w) as [|agent agents] eqn:Hcand.
  { cbn in Hchosen. discriminate. }
  unfold bind.
  destruct (count_agents_spec alone orgId (agent :: agents) w alone_quiet)
    as (counted & w1 & Hrun & Hc1 & Hincl & Hclock & Hall).
  destruct (Hall alone_keeps_reliable Hf) as [-> Hf1].
  specialize (Hclock alone_keeps_clock).
  fold alone. rewrite Hrun. unfold assignLeastBusy.
  destruct (eligible orgId (crm_conversations w) (agent :: agents)) as [|c cs] eqn:Hel.
  { cbn in Hchosen. discriminate. }
  unfold bind, lift. rewrite Hchosen.
  rewrite (store_request_answered _ w1 Hf1).
  unfold q_update_conversation. cbn [fst snd].
  unfold suspended, concurrently, alone. cbn [ret fst snd]. fold alone.
  rewrite logAssignment_conversations by apply alone_quiet.
  cbn [crm_conversations set_crm_conversations].
  unfold assign_rows. congruence.
Qed.


(** *** A desk with two agents *)

Definition conversation_row (id contactId : uuid) (agent : option uuid)
  (status : ConversationStatus) (protocolNumber : string) : Conversation :=
  mkConversation id 1 contactId agent None status false None (JObj []) [] None
    (Some protocolNumber) None None 0 1793750000000%Z 1793750000000%Z.

(** Agent 20 is away with two open conversations, agent 21 is online with
    five; conversation 100 of contact 10 is pending. *)
Definition away_agent : CrmUser := mkCrmUser 20 1 "Bia" r_agent q_both u_away 10.
Definition online_agent : CrmUser := mkCrmUser 21 1 "Caio" r_agent q_both u_online 10.

Definition desk_conversations : list Conversation :=
  [conversation_row 101 11 (Some 20) c_open "20261103-00001";
   conversation_row 102 12 (Some 20) c_waiting "20261103-00002";
   conversation_row 103 13 (Some 21) c_open "20261103-00003";
   conversation_row 104 14 (Some 21) c_open "20261103-00004";
   conversation_row 105 15 (Some 21) c_open "20261103-00005";
   conversation_row 106 16 (Some 21) c_waiting "20261103-00006";
   conversation_row 107 17 (Some 21) c_open "20261103-00007";
   conversation_row 100 10 None c_pending "20261104-00008"].

Definition desk_world (agents : list CrmUser) : World :=
  mkWorld [] agents [] desk_conversations [] [] [] 200 1793750400000%Z None [] [] [] [] [].








Lemma update_rows_In {A} (matches : A -> bool) (f : A -> A) (rows : list A) (r : A) :
  In r rows -> matches r = true -> In (f r) (update_rows matches f rows).
Proof.
  intros Hin Hm. unfold update_rows. apply in_map_iff. exists r.
  rewrite Hm. auto.
Qed.

(** C5. With a store that answers and at least one eligible candidate,
    [assignAgent] chooses an eligible candidate such that: if any eligible
    candidate is online the chosen one is online, whatever the counts; no
    eligible candidate of the same online-status has a smaller open count;
    and every row of the conversation gets the chosen agent as
    [assigned_agent_id] and the status [open]. *)
Theorem assignAgent_prefers_online_then_least_busy (w : World)
  (orgId conversationId : uuid) (queue : option string) :
  faults w = [] ->
  eligible orgId (crm_conversations w) (candidates orgId queue w) <> [] ->
  let w' := snd (assignAgent orgId conversationId queue w) in
  exists chosen,
    In chosen (eligible orgId (crm_conversations w) (candidates orgId queue w))
    /\ (forall other,
           In other (eligible orgId (crm_conversations w) (candidates orgId queue w)) ->
           (is_online (u_status (fst other)) = true ->
            is_online (u_status (fst chosen)) = true)
           /\ (is_online (u_status (fst other)) = is_online (u_status (fst chosen)) ->
               (snd chosen <= snd other)%Z))
    /\ crm_conversations w'
       = assign_rows conversationId (u_id (fst chosen)) (now w) (crm_conversations w)
    /\ (forall c, In c (crm_conversations w) -> cv_id c = conversationId ->
          exists c', In c' (crm_conversations w')
                     /\ cv_id c' = conversationId
                     /\ cv_assigned_agent_id c' = Some (u_id (fst chosen))
                     /\ cv_status c' = c_open).
Proof.
  intros Hf Hne w'. subst w'.
  destruct (first_sorted_nonempty _ Hne) as [chosen Hchosen].
  exists chosen.
  split; [apply first_sorted_In, Hchosen|].
  split; [apply first_sorted_preferred, Hchosen|].
  rewrite (assignAgent_answered w orgId conversationId queue chosen Hf Hchosen).
  split; [reflexivity|].
  intros c Hc Hid. exists (with_assignment (u_id (fst chosen)) (now w) c).
  split; [|cbn; auto].
  unfold assign_rows. apply update_rows_In; [exact Hc|].
  apply Nat.eqb_eq, Hid.
Qed.

(** The spec's scenario: the online agent with five open conversations is
    chosen over the away agent with two. *)
Lemma assignAgent_prefers_online_then_least_busy_witness :
  let w := desk_world [away_agent; online_agent] in
  faults w = []
  /\ eligible 1 (crm_conversations w) (candidates 1 None w)
     = [(away_agent, 2%Z); (online_agent, 5%Z)]
  /\ exists chosen,
       In chosen [(away_agent, 2%Z); (online_agent, 5%Z)]
       /\ is_online (u_status (fst chosen)) = true
       /\ crm_conversations (snd (assignAgent 1 100 None w))
          = assign_rows 100 (u_id (fst chosen)) (now w) (crm_conversations w).
Proof.
  intros w. split; [reflexivity|]. split; [reflexivity|].
  destruct (assignAgent_prefers_online_then_least_busy w 1 100 None eq_refl)
    as (chosen & Hin & Hpref & Hrows & _).
  - discriminate.
  - exists chosen. split; [exact Hin|]. split; [|exact Hrows].
    apply (Hpref (online_agent, 5%Z)); [right; left; reflexivity | reflexivity].
Defined.

Example assignAgent_desk :
  map (fun c => (cv_id c, cv_assigned_agent_id c, cv_status c))
    (filter (fun c => (cv_id c =? 100)%nat)
       (crm_conversations (snd (assignAgent 1 100 None (desk_world [away_agent; online_agent])))))
  = [(100, Some 21, c_open)].
Proof. reflexivity. Qed.

(** ** Idempotent ingestion *)

(** The assignments on record: each assigned conversation with its agent. *)
Definition assigned_pairs (rows : list Conversation) : list (uuid * uuid) :=
  flat_map (fun c => match cv_assigned_agent_id c with
                     | Some agentId => [(cv_id c, agentId)]
                     | None => []
                     end) rows.

(** What idempotence is about: the message rows, the assignments and the
    agent-activity entries (which only an assignment tries to write). *)
Definition ledger (w : World)
  : list Message * list (uuid * uuid) * list ActivityLog :=
  (crm_messages w, assigned_pairs (crm_conversations w), crm_agent_activity_log w).

Lemma ledger_messages (w w' : World) : ledger w' = ledger w -> crm_messages w' = crm_messages w.
Proof. unfold ledger. intros H. inversion H. reflexivity. Qed.

Lemma ledger_new_conversation : tolerates_new_conversation (same_view ledger).
Proof.
  intros orgId contactId protocolNumber w. unfold same_view, q_insert_conversation.
  destruct (existsb _ (crm_conversations w)); [reflexivity|].
  unfold ledger. cbn. unfold assigned_pairs.
  rewrite flat_map_app. cbn. rewrite app_nil_r. reflexivity.
Qed.

Lemma ledger_upsertContact (orgId : uuid) (phone : string)
  (name profilePicture : option string) (w : World) :
  ledger (snd (upsertContact orgId phone name profilePicture w)) = ledger w.
Proof.
  apply (preserves_upsertContact (same_view ledger));
    first [apply same_view_refl | apply same_view_trans | tolerated].
Qed.

Lemma ledger_findOrCreateConversation (orgId contactId : uuid) (w : World) :
  ledger (snd (findOrCreateConversation orgId contactId w)) = ledger w.
Proof.
  apply (preserves_findOrCreateConversation (same_view ledger));
    first [apply same_view_refl | apply same_view_trans
          | apply ledger_new_conversation | tolerated].
Qed.

Lemma ledger_materializeMedia (extracted : Extracted) (accessToken : option string)
  (conversationId : uuid) (w : World) :
  ledger (snd (materializeMedia extracted accessToken conversationId w)) = ledger w.
Proof.
  apply (preserves_materializeMedia (same_view ledger));
    first [apply same_view_refl | apply same_view_trans | tolerated].
Qed.

Lemma messages_afterSave (org : Organization) (message : InboundMessage)
  (conversation : Conversation) (accessToken : option string)
  (messagePreview : JSValue) (phoneNumberId : string) (w : World) :
  crm_messages (snd (afterSave org message conversation accessToken messagePreview
                       phoneNumberId w))
  = crm_messages w.
Proof.
  apply (preserves_afterSave (same_view crm_messages));
    first [apply same_view_refl | apply same_view_trans | tolerated].
Qed.

(** One run either leaves the ledger as it is, or stores one row carrying
    the message id, which was not stored before. *)
Definition stores_or_skips (waMessageId : string) (w w' : World) : Prop :=
  ledger w' = ledger w
  \/ (existsb (has_whatsapp_id waMessageId) (crm_messages w) = false
      /\ exists row, crm_messages w' = (crm_messages w ++ [row])%list
                     /\ ms_whatsapp_message_id row = Some waMessageId).

Lemma storeAndRoute_stores_or_skips (org : Organization) (message : InboundMessage)
  (phoneNumberId : string) (contact : Contact) (conversation : Conversation) (w : World) :
  stores_or_skips (msg_id message) w
    (snd (storeAndRoute org message phoneNumberId contact conversation w)).
Proof.
  unfold storeAndRoute, bind at 1, lift.
  destruct (extractMessageContent (message_object message)) as [extracted|e];
    [|left; reflexivity].
  unfold bind at 1, access_token.
  set (accessToken := match configured (o_whatsapp_access_token org) with
                      | Some t => Some t
                      | None => configured (env_access_token w)
                      end).
  unfold bind at 1.
  pose proof (ledger_materializeMedia extracted accessToken (cv_id conversation) w)
    as Hmedia.
  destruct (materializeMedia extracted accessToken (cv_id conversation) w)
    as [[media|e] w3]; cbn [snd] in Hmedia; [|left; exact Hmedia].
  unfold bind at 1.
  destruct (buildMessagePreview (messageType extracted) (content extracted))
    as [messagePreview|e]; [|left; exact Hmedia].
  unfold bind.
  match goal with
  | |- context [store_request ?q w3] =>
      destruct (store_request_cases q w3)
        as [(code & msg & rest & Hf & ->)
           | (w0 & Hw0 & ->)]
  end.
  { left. cbn. exact Hmedia. }
  assert (Hsame : ledger w0 = ledger w).
  { destruct Hw0 as [[_ ->] | (rest & _ & ->)]; exact Hmedia. }
  unfold q_insert_message.
  destruct (existsb (has_whatsapp_id (msg_id message)) (crm_messages w0)) eqn:Hdup;
    cbn [fst snd unique_violation].
  { left. cbn. exact Hsame. }
  destruct (message_references (cv_id conversation) (ct_id contact) w0);
    cbn [negb fst snd foreign_key_violation].
  2:{ left. cbn. exact Hsame. }
  right. rewrite <- (ledger_messages w w0 Hsame). split; [exact Hdup|].
  eexists. rewrite messages_afterSave. cbn. split; reflexivity.
Qed.

Lemma processIncomingMessage_stores_or_skips (org : Organization)
  (message : InboundMessage) (contacts : option (list WhatsAppContact))
  (phoneNumberId : string) (w : World) :
  stores_or_skips (msg_id message) w
    (snd (processIncomingMessage org message contacts phoneNumberId w)).
Proof.
  unfold processIncomingMessage.
  set (body := bind _ _).
  assert (Hbody : stores_or_skips (msg_id message) w (snd (body w))).
  { subst body. unfold bind at 1.
    pose proof (ledger_upsertContact (o_org_id org) (msg_from message)
                  (sender_name message contacts) None w) as H1.
    destruct (upsertContact _ _ _ _ w) as [[contact|e] w1]; cbn [snd] in H1;
      [|left; exact H1].
    unfold bind at 1.
    pose proof (ledger_findOrCreateConversation (o_org_id org) (ct_id contact) w1) as H2.
    destruct (findOrCreateConversation _ _ w1) as [[conversation|e] w2];
      cbn [snd] in H2; [|left; cbn; congruence].
    destruct (storeAndRoute_stores_or_skips org message phoneNumberId contact
                conversation w2) as [Hskip | (Hnew & row & Hrows & Hid)].
    - left. congruence.
    - right. rewrite (ledger_messages w1 w2 H2), (ledger_messages w w1 H1) in Hnew, Hrows.
      split; [exact Hnew|]. exists row. split; assumption. }
  unfold try_catch. destruct (body w) as [[[]|e] w']; cbn [snd] in *; [exact Hbody|].
  destruct Hbody as [Hskip | (Hnew & row & Hrows & Hid)].
  - left. exact Hskip.
  - right. split; [exact Hnew|]. exists row. split; assumption.
Qed.

Lemma filter_last_length {A} (f : A -> bool) (l : list A) (x : A) :
  existsb f l = false -> f x = true -> List.length (filter f (l ++ [x])) = 1.
Proof.
  intros Hl Hx. rewrite filter_app, (filter_none f l Hl). cbn. rewrite Hx. reflexivity.
Qed.

Lemma has_whatsapp_id_of (waMessageId : string) (row : Message) :
  ms_whatsapp_message_id row = Some waMessageId -> has_whatsapp_id waMessageId row = true.
Proof.
  intros H. unfold has_whatsapp_id. rewrite H. cbn. apply String.eqb_refl.
Qed.

(** C1. Processing a message whose provider id is already stored never
    throws and changes neither the message rows, nor the assignments, nor
    the agent-activity log: the insert fails and the run stops before the
    assignment step. So over two runs of the same message, starting with
    the id not stored: at most one row carries the id at the end, exactly
    one if the first run stored it, and at most one of the two runs
    touches the assignments. *)
Theorem processIncomingMessage_idempotent (org : Organization) (message : InboundMessage)
  (contacts : option (list WhatsAppContact)) (phoneNumberId : string) (w : World) :
  let run := processIncomingMessage org message contacts phoneNumberId in
  let stored := fun w0 => existsb (has_whatsapp_id (msg_id message)) (crm_messages w0) in
  let rows_with_id :=
    fun w0 => List.length (filter (has_whatsapp_id (msg_id message)) (crm_messages w0)) in
  let w1 := snd (run w) in
  let w2 := snd (run w1) in
  (stored w = true ->
   fst (run w) = Normal tt
   /\ crm_messages w1 = crm_messages w
   /\ assigned_pairs (crm_conversations w1) = assigned_pairs (crm_conversations w)
   /\ crm_agent_activity_log w1 = crm_agent_activity_log w)
  /\ (stored w = false ->
      rows_with_id w2 <= 1
      /\ (stored w1 = true -> rows_with_id w2 = 1)
      /\ (ledger w1 = ledger w \/ ledger w2 = ledger w1)).
Proof.
  intros run stored rows_with_id w1 w2.
  assert (H1 : stores_or_skips (msg_id message) w w1)
    by apply processIncomingMessage_stores_or_skips.
  assert (H2 : stores_or_skips (msg_id message) w1 w2)
    by apply processIncomingMessage_stores_or_skips.
  assert (Hnormal : fst (run w) = Normal tt) by apply try_catch_log_normal.
  clearbody w1 w2. subst stored rows_with_id. cbn beta.
  unfold stores_or_skips in H1, H2.
  split.
  - intros Hstored. split; [exact Hnormal|].
    destruct H1 as [Hskip | (Hnew & _)]; [|congruence].
    unfold ledger in Hskip. inversion Hskip. auto.
  - intros Hfresh. destruct H1 as [Hskip1 | (_ & row & Hrows & Hid)].
    + (* the first run stored nothing *)
      assert (Hm1 : crm_messages w1 = crm_messages w) by (apply ledger_messages, Hskip1).
      split; [|split; [rewrite Hm1; congruence | left; exact Hskip1]].
      destruct H2 as [Hskip2 | (Hfresh1 & row & Hrows & Hid)].
      * rewrite (ledger_messages w1 w2 Hskip2), Hm1.
        rewrite (filter_none _ _ Hfresh). cbn. lia.
      * rewrite Hrows, filter_last_length;
          [lia | exact Hfresh1 | apply has_whatsapp_id_of, Hid].
    + (* the first run stored the row: the second run is a duplicate *)
      assert (Hstored1 : existsb (has_whatsapp_id (msg_id message)) (crm_messages w1) = true).
      { rewrite Hrows. apply existsb_app_last, has_whatsapp_id_of, Hid. }
      destruct H2 as [Hskip2 | (Hnew2 & _)]; [|congruence].
      assert (Hcount : List.length (filter (has_whatsapp_id (msg_id message))
                                      (crm_messages w2)) = 1).
      { rewrite (ledger_messages w1 w2 Hskip2), Hrows.
        apply filter_last_length; [exact Hfresh | apply has_whatsapp_id_of, Hid]. }
      split; [lia|]. split; [intros _; exact Hcount | right; exact Hskip2].
Qed.

(** The spec's end-to-end scenario: an organization with an auto-reply, an
    online agent, and a first text message from +5511999990000. *)
Definition acme : Organization :=
  mkOrganization 1 (Some "104000000000001") (Some "token-1")
    (Some "We'll be right with you").

Definition hello : InboundMessage :=
  mkInbound "+5511999990000" "wamid.1" "1793750400"
    [("type", JStr "text"); ("text", JObj [("body", JStr "Hello")])].

Definition acme_world (agents : list CrmUser) : World :=
  mkWorld [acme] agents [] [] [] [] [] 1 1793750400000%Z None [] [7] [] [] [].

(** The inbound row names the contact as its sender, and
    [crm_messages.sender_id] references [crm_users]: the row is accepted
    where a user row has the contact's id. The first contact of
    [acme_world] gets the id 1; this is the user row of that id, a team
    member who is offline. *)
Definition sender_account : CrmUser := mkCrmUser 1 1 "Ana" r_agent q_both u_offline 10.

(** The same delivery twice: one message row, one assignment. *)
Lemma processIncomingMessage_idempotent_witness :
  let run := processIncomingMessage acme hello None "104000000000001" in
  let w1 := snd (run (acme_world [sender_account; online_agent])) in
  existsb (has_whatsapp_id (msg_id hello)) (crm_messages w1) = true
  /\ map ms_content (crm_messages w1) = [Some "Hello"]
  /\ assigned_pairs (crm_conversations w1) = [(2, 21)]
  /\ crm_messages (snd (run w1)) = crm_messages w1
  /\ assigned_pairs (crm_conversations (snd (run w1)))
     = assigned_pairs (crm_conversations w1).
Proof.
  intros run w1.
  assert (Hstored : existsb (has_whatsapp_id (msg_id hello)) (crm_messages w1) = true)
    by (vm_compute; reflexivity).
  pose proof (processIncomingMessage_idempotent acme hello None "104000000000001" w1) as H.
  cbv zeta in H. destruct H as [Hdup _].
  destruct (Hdup Hstored) as (_ & Hmessages & Hassigned & _).
  split; [exact Hstored|].
  split; [vm_compute; reflexivity|].
  split; [vm_compute; reflexivity|].
  split; [exact Hmessages | exact Hassigned].
Defined.

(** ** The auto-reply *)

















(** The first message of a new contact, with an agent online: the
    conversation is fetched pending, the assignment step flips it to open,
    and the auto-reply is sent all the same. *)
Example autoReply_after_assignment :
  let w' := snd (processIncomingMessage acme hello None "104000000000001"
                   (acme_world [sender_account; online_agent])) in
  map (fun c => (cv_status c, cv_assigned_agent_id c)) (crm_conversations w')
  = [(c_open, Some 21)]
  /\ outbox w'
     = [SendTextMessage "+5511999990000" "We'll be right with you"
          "104000000000001" "token-1";
        MarkAsRead "wamid.1" "104000000000001" "token-1"].
Proof. vm_compute. split; reflexivity. Qed.



(** The inbound row names the contact as its sender. With no user row of
    the contact's id the store refuses it: contact and conversation are
    there, the message is not, and the run stops before assignment,
    auto-reply and read receipt. *)
Example inbound_row_refused_without_sender_account :
  let w' := snd (processIncomingMessage acme hello None "104000000000001"
                   (acme_world [online_agent])) in
  map (fun c => (ct_id c, ct_phone c)) (crm_contacts w') = [(1, "+5511999990000")]
  /\ map (fun c => (cv_status c, cv_assigned_agent_id c)) (crm_conversations w')
     = [(c_pending, None)]
  /\ crm_messages w' = []
  /\ outbox w' = []
  /\ console w' = ["Error saving message:"].
Proof. vm_compute. repeat split. Qed.

(** The spec's end-to-end scenario with no agent online: one contact, one
    pending conversation with a protocol number, one stored text message,
    no assignment, one auto-reply attempt. *)
Example first_message_without_agents :
  let w' := snd (processIncomingMessage acme hello None "104000000000001"
                   (acme_world [sender_account])) in
  map (fun c => (ct_org_id c, ct_phone c)) (crm_contacts w') = [(1, "+5511999990000")]
  /\ map (fun c => (cv_status c, cv_assigned_agent_id c, cv_protocol_number c))
       (crm_conversations w')
     = [(c_pending, None, Some "20261104-00007")]
  /\ map (fun m => (ms_sender_type m, ms_message_type m, ms_content m)) (crm_messages w')
     = [(s_contact, MT_text, Some "Hello")]
  /\ crm_agent_activity_log w' = []
  /\ filter (fun call => match call with SendTextMessage _ _ _ _ => true | _ => false end)
       (outbox w')
     = [SendTextMessage "+5511999990000" "We'll be right with you"
          "104000000000001" "token-1"].
Proof. vm_compute. repeat split. Qed.

End HandlerFacts.
